(** * teamsToRAG: a shallow embedding of the sync, merge and chunking core

    The development follows the JavaScript sources:
    - [src/teamsClient.js]   : the paginated fetch loops;
    - [src/ragGenerator.js]  : header, date grouping, export reader and
                               appender;
    - [src/index.js]         : the incremental-mode detection of the
                               [generate] command;
    - [src/ragOptimizer.js]  : chunk splitter, response parser, aggregation.

    JavaScript strings are sequences of UTF-16 code units; they are modelled
    as [list N].  Regular expressions of the sources are embedded as
    hand-written matchers, one per expression, each quoted next to its
    definition.  The file system is a finite map from paths to contents, the
    remote listing is the script of responses the loop receives, and the
    host's [Date] and [JSON] built-ins are parameters. *)

From Stdlib Require Import ZArith NArith Lia String Ascii List.
From stdpp Require Import base option list sorting gmap.

Set Default Proof Using "Type".
Set Warnings "-register-all".
Local Open Scope N_scope.

(** ** Strings *)

Abbreviation jsstring := (list N).

Definition js (s : string) : jsstring :=
  N_of_ascii <$> list_ascii_of_string s.
Arguments js s%_string.

(** [\s] of ECMAScript: white space and line terminators. *)
Definition isWhiteSpace (c : N) : bool :=
  (c =? 9) || (c =? 10) || (c =? 11) || (c =? 12) || (c =? 13) || (c =? 32)
  || (c =? 160) || (c =? 5760) || ((8192 <=? c) && (c <=? 8202))
  || (c =? 8232) || (c =? 8233) || (c =? 8239) || (c =? 8287)
  || (c =? 12288) || (c =? 65279).

(** Line terminators: what [.] refuses and where [^] and [$] anchor under
    the [m] flag. *)
Definition isLineTerminator (c : N) : bool :=
  (c =? 10) || (c =? 13) || (c =? 8232) || (c =? 8233).

(** [\d] *)
Definition isDigit (c : N) : bool := (48 <=? c) && (c <=? 57).

Definition str_eqb (a b : jsstring) : bool := bool_decide (a = b).

(** [s.startsWith(p)], returning the rest of [s]. *)
Fixpoint stripPrefix (p s : jsstring) : option jsstring :=
  match p, s with
  | [], _ => Some s
  | c :: p', d :: s' => if c =? d then stripPrefix p' s' else None
  | _ :: _, [] => None
  end.

(** [String.prototype.trim] *)
Fixpoint trimStart (s : jsstring) : jsstring :=
  match s with
  | c :: s' => if isWhiteSpace c then trimStart s' else s
  | [] => []
  end.

Definition trimEnd (s : jsstring) : jsstring := rev (trimStart (rev s)).

Definition trim (s : jsstring) : jsstring := trimEnd (trimStart s).

Definition newline : jsstring := [10].

(** [parts.join(sep)] *)
Fixpoint join (sep : jsstring) (parts : list jsstring) : jsstring :=
  match parts with
  | [] => []
  | [p] => p
  | p :: rest => p ++ sep ++ join sep rest
  end.

(** [s.split('\n')]: never empty, one more part than there are separators. *)
Fixpoint splitLines (s : jsstring) : list jsstring :=
  match s with
  | [] => [[]]
  | c :: s' =>
      if c =? 10 then [] :: splitLines s'
      else match splitLines s' with
           | l :: ls => (c :: l) :: ls
           | [] => [[c]]
           end
  end.

(** ** Numbers

    Counts are non-negative integers.  [parseInt] is applied by the sources
    only to what [(\d+)] captured; [String(n)] prints the decimal digits.
    Both are exact below 2^53, which is where the theorems use them. *)

Definition parseInt (digits : jsstring) : N :=
  fold_left (fun acc c => 10 * acc + (c - 48)) digits 0.

Fixpoint digitsOf (fuel : nat) (n : N) (acc : jsstring) : jsstring :=
  let acc' := (48 + n mod 10) :: acc in
  match fuel with
  | O => acc'
  | S fuel' => if n <? 10 then acc' else digitsOf fuel' (n / 10) acc'
  end.

Definition numberToString (n : N) : jsstring :=
  digitsOf (N.to_nat (N.log2 n)) n [].

Definition MAX_SAFE_INTEGER : N := 2 ^ 53 - 1.

(** ** Host built-ins

    [Date] objects carry a time value in milliseconds, or NaN for an invalid
    date.  Parsing and the locale renderings depend on the host (engine,
    locale, time zone) and are parameters of the development, as is
    [JSON.parse]. *)

Inductive Date := ValidDate (t : Z) | InvalidDate.

(** What [JSON.parse] returns.  Numbers keep their lexeme; an object keeps
    its members in source order. *)
Inductive Json :=
| JNull
| JBool (b : bool)
| JNumber (lexeme : jsstring)
| JString (s : jsstring)
| JArray (items : list Json)
| JObject (members : list (jsstring * Json)).

Record Host := {
  JSON_parse : jsstring -> option Json;     (* None: SyntaxError *)
  Date_parse : jsstring -> Date;            (* new Date(string) *)
  toISOString : Z -> jsstring;              (* on a valid time value *)
  toLocaleString : Date -> jsstring;
  toLocaleDateString : Date -> jsstring;
  toLocaleTimeString : Date -> jsstring;
}.

(** [a - b] on two dates, as the sort comparator of the grouping sees it:
    NaN when either is invalid, and the sort treats NaN as 0. *)
Definition Date_sub (a b : Date) : Z :=
  match a, b with
  | ValidDate x, ValidDate y => (x - y)%Z
  | _, _ => 0%Z
  end.

Inductive Exn :=
| Error (message : jsstring)
| RangeError (message : jsstring)
| TypeError (message : jsstring).

Inductive Outcome (A : Type) :=
| Return (a : A)
| Throw (e : Exn).
Arguments Return {A} a.
Arguments Throw {A} e.

(** ** Messages (Graph API chatMessage, the fields the sources read) *)

Record User := { displayName : option jsstring; userId : option jsstring }.

Record Body := { content : jsstring; contentType : jsstring }.

Record Attachment := { att_name : option jsstring; att_contentType : option jsstring }.

Record Reaction := { reactionType : jsstring }.

Record Message := {
  msg_id : jsstring;
  createdDateTime : jsstring;
  from_user : option User;                 (* msg.from?.user *)
  body : option Body;
  attachments : option (list Attachment);
  reactions : option (list Reaction);
}.

(** * teamsClient.js *)

Module TeamsClient.

Definition GRAPH_API_BASE : jsstring := js "https://graph.microsoft.com/v1.0".

(** What [axios.get] rejects with: [error.response] (status and
    [data.error?.message]) when the server answered, and [error.message]. *)
Record AxiosError := {
  response : option (N * option jsstring);
  ax_message : jsstring;
}.

(** The remote listing as the loop meets it: the answer to the current
    request and, behind its ['@odata.nextLink'], the answer to the next. *)
Inductive Remote :=
| Rejects (e : AxiosError)
| LastPage (value : list Message)
| Page (value : list Message) (nextLink : jsstring) (rest : Remote).

Record Request := { url : jsstring; bearer : jsstring }.

(** [maxMessages && ...]: [null] and [0] are falsy. *)
Definition capSet (maxMessages : option Z) : bool :=
  match maxMessages with
  | Some n => negb (n =? 0)%Z
  | None => false
  end.

Definition capReached (maxMessages : option Z) (fetchedCount : nat) : bool :=
  match maxMessages with
  | Some n => negb (n =? 0)%Z && (n <=? Z.of_nat fetchedCount)%Z
  | None => false
  end.

(** The [while (url)] loop shared by both fetchers: one request per
    iteration, the batch pushed onto [messages], then the cap test and the
    continuation link.  Returns what was accumulated (in arrival order) or
    the rejection, and the requests issued. *)
Fixpoint pageLoop (accessToken : jsstring) (maxMessages : option Z)
    (url : jsstring) (remote : Remote)
    (messages : list Message) (fetchedCount : nat) (log : list Request)
    : (list Message + AxiosError) * list Request :=
  let log := log ++ [{| url := url; bearer := accessToken |}] in
  match remote with
  | Rejects e => (inr e, log)
  | LastPage batch => (inl (messages ++ batch), log)
  | Page batch nextLink rest =>
      let messages := messages ++ batch in
      let fetchedCount := (fetchedCount + length batch)%nat in
      if capReached maxMessages fetchedCount then (inl messages, log)
      else match nextLink with
           | [] => (inl messages, log)          (* '' || null *)
           | _ => pageLoop accessToken maxMessages nextLink rest
                     messages fetchedCount log
           end
  end.

(** [messages.slice(-maxMessages)] *)
Definition sliceFromEnd (messages : list Message) (maxMessages : Z) : list Message :=
  let len := Z.of_nat (length messages) in
  let start := (-maxMessages)%Z in
  let k := if (start <? 0)%Z then Z.max (len + start) 0 else Z.min start len in
  drop (Z.to_nat k) messages.

(** After the loop: reverse, then trim to the cap. *)
Definition finish (maxMessages : option Z) (messages : list Message) : list Message :=
  let messages := rev messages in
  match maxMessages with
  | Some n =>
      if negb (n =? 0)%Z && (n <? Z.of_nat (length messages))%Z
      then sliceFromEnd messages n
      else messages
  | None => messages
  end.

Definition truthyStr (s : option jsstring) : option jsstring :=
  match s with
  | Some [] => None
  | _ => s
  end.

(** The [catch] block: which [Error] a rejection becomes. *)
Definition rethrow (notFound forbidden failed : jsstring) (e : AxiosError) : Exn :=
  match response e with
  | Some (status, apiMessage) =>
      if status =? 404 then Error notFound
      else if status =? 403 then Error forbidden
      else Error (js "Graph API error: " ++
                  default (ax_message e) (truthyStr apiMessage))
  | None => Error (failed ++ ax_message e)
  end.

(** [sinceDate.toISOString()]: a RangeError on an invalid date. *)
Definition Date_toISOString (h : Host) (d : Date) : Outcome jsstring :=
  match d with
  | ValidDate t => Return (toISOString h t)
  | InvalidDate => Throw (RangeError (js "Invalid time value"))
  end.

(** The first request URL: the [$top=50] listing and, with a [sinceDate],
    the server-side [$filter] clause. *)
Definition firstUrl (h : Host) (baseUrl : jsstring) (sinceDate : option Date)
    : Outcome jsstring :=
  match sinceDate with
  | Some d =>
      match Date_toISOString h d with
      | Return filterDate =>
          Return (baseUrl ++ js "&$filter=createdDateTime gt " ++ filterDate)
      | Throw e => Throw e
      end
  | None => Return baseUrl
  end.

Definition fetchWith (h : Host) (baseUrl notFound forbidden failed : jsstring)
    (accessToken : jsstring) (maxMessages : option Z) (sinceDate : option Date)
    (remote : Remote) : Outcome (list Message) * list Request :=
  match firstUrl h baseUrl sinceDate with
  | Throw e => (Throw e, [])                       (* thrown before [try] *)
  | Return url =>
      match pageLoop accessToken maxMessages url remote [] 0 [] with
      | (inl messages, log) => (Return (finish maxMessages messages), log)
      | (inr e, log) => (Throw (rethrow notFound forbidden failed e), log)
      end
  end.

Definition chatUrl (chatId : jsstring) : jsstring :=
  GRAPH_API_BASE ++ js "/chats/" ++ chatId ++ js "/messages?$top=50".

Definition channelUrl (teamId channelId : jsstring) : jsstring :=
  GRAPH_API_BASE ++ js "/teams/" ++ teamId ++ js "/channels/" ++ channelId
    ++ js "/messages?$top=50".

Definition fetchChatMessages (h : Host) (accessToken chatId : jsstring)
    (maxMessages : option Z) (sinceDate : option Date) (remote : Remote) :=
  fetchWith h (chatUrl chatId)
    (js "Chat not found: " ++ chatId ++ js ". Verify the chat ID is correct.")
    (js "Permission denied. For application auth, ensure Chat.Read.All permission with admin consent. For delegated auth, ensure ChatMessage.Read permission and user is a member of the chat.")
    (js "Failed to fetch messages: ")
    accessToken maxMessages sinceDate remote.

Definition fetchChannelMessages (h : Host) (accessToken teamId channelId : jsstring)
    (maxMessages : option Z) (sinceDate : option Date) (remote : Remote) :=
  fetchWith h (channelUrl teamId channelId)
    (js "Channel not found. Verify the team ID (" ++ teamId
       ++ js ") and channel ID (" ++ channelId ++ js ") are correct.")
    (js "Permission denied. For application auth, ensure ChannelMessage.Read.All permission with admin consent. For delegated auth, ensure ChannelMessage.Read permission and user is a member of the team.")
    (js "Failed to fetch channel messages: ")
    accessToken maxMessages sinceDate remote.

End TeamsClient.

(** * Regular expressions

    An anchored matcher looks at the text from the current position on and
    returns the length of the match there, with what the expression
    captures.  [String.prototype.match] and [replace] with a non-global
    expression take the leftmost position where the matcher succeeds. *)

Module Regex.

Fixpoint span (f : N -> bool) (s : jsstring) : jsstring * jsstring :=
  match s with
  | c :: s' =>
      if f c then let '(a, b) := span f s' in (c :: a, b) else ([], s)
  | [] => ([], [])
  end.

Fixpoint search {C : Type} (m : jsstring -> option (nat * C)) (s : jsstring)
    : option (nat * nat * C) :=
  match m s with
  | Some (n, c) => Some (0%nat, n, c)
  | None =>
      match s with
      | [] => None
      | _ :: s' =>
          match search m s' with
          | Some (p, n, c) => Some (S p, n, c)
          | None => None
          end
      end
  end.

(** [s.replace(re, replacement)], [re] without the [g] flag.  None of the
    replacement texts of the sources contains a [$] pattern. *)
Definition replaceFirst {C : Type} (m : jsstring -> option (nat * C))
    (replacement s : jsstring) : jsstring :=
  match search m s with
  | Some (p, n, _) => take p s ++ replacement ++ drop (p + n) s
  | None => s
  end.

(** [s.replace(re, replacement)] with the [g] flag, for an expression that
    does not match the empty string: [skip] counts the characters of the
    current match still to be passed over. *)
Fixpoint replaceAllFrom {C : Type} (m : jsstring -> option (nat * C))
    (replacement : jsstring) (skip : nat) (s : jsstring) : jsstring :=
  match skip, s with
  | S k, _ :: s' => replaceAllFrom m replacement k s'
  | _, [] => []
  | O, c :: s' =>
      match m s with
      | Some (n, _) => replacement ++ replaceAllFrom m replacement (n - 1) s'
      | None => c :: replaceAllFrom m replacement 0 s'
      end
  end.

Definition replaceAll {C : Type} (m : jsstring -> option (nat * C))
    (replacement s : jsstring) : jsstring :=
  replaceAllFrom m replacement 0 s.

(** A literal. *)
Definition lit (p : jsstring) (s : jsstring) : option (nat * unit) :=
  match stripPrefix p s with
  | Some _ => Some (length p, ())
  | None => None
  end.

(** The largest [k >= 1] such that [w !! k] is not a line terminator,
    for [w] a run of white space: how far [\s+] gives back when [.+] finds
    nothing after the whole run. *)
Fixpoint lastDotStart (k : nat) (w : jsstring) : option (nat * N) :=
  match w with
  | [] => None
  | c :: w' =>
      match lastDotStart (S k) w' with
      | Some r => Some r
      | None =>
          if (negb (isLineTerminator c) && negb (k =? 0)%nat) then Some (k, c)
          else None
      end
  end.

(** [\s+(.+)] at the start of [s]: the length matched and the capture.
    [\s+] takes the whole run of white space when a character follows it
    (that character is not a line terminator, these being white space); at
    the end of input it backs off to the last white space [.] accepts. *)
Definition spacesThenRest (s : jsstring) : option (nat * jsstring) :=
  let '(w, r) := span isWhiteSpace s in
  match w, r with
  | [], _ => None
  | _ :: _, _ :: _ =>
      let '(cap, _) := span (fun c => negb (isLineTerminator c)) r in
      Some ((length w + length cap)%nat, cap)
  | _ :: _, [] =>
      match lastDotStart 0 w with
      | Some (k, c) => Some (S k, [c])
      | None => None
      end
  end.

(** [LABEL\s+(.+)] for a literal [LABEL]. *)
Definition labelled (label : jsstring) (s : jsstring) : option (nat * jsstring) :=
  match stripPrefix label s with
  | Some rest =>
      match spacesThenRest rest with
      | Some (n, cap) => Some ((length label + n)%nat, cap)
      | None => None
      end
  | None => None
  end.

(** [/\*\*Last Run:\*\*\s+(.+)/] *)
Definition reLastRun := labelled (js "**Last Run:**").

(** [/\*\*Last Run \(Local\):\*\*\s+.+/] *)
Definition reLastRunLocal := labelled (js "**Last Run (Local):**").

(** [/\*\*Source:\*\*\s+(.+)/] *)
Definition reSource := labelled (js "**Source:**").

(** [/\*\*Topic:\*\*\s+(.+)/], [/\*\*Chat Type:\*\*\s+(.+)/],
    [/\*\*Created:\*\*\s+(.+)/] *)
Definition reTopic := labelled (js "**Topic:**").
Definition reChatType := labelled (js "**Chat Type:**").
Definition reCreated := labelled (js "**Created:**").

(** [/\*\*Total Messages:\*\*\s+(\d+)/]: white space and digits are
    disjoint classes, so both runs are taken whole. *)
Definition reTotalMessages (s : jsstring) : option (nat * jsstring) :=
  match stripPrefix (js "**Total Messages:**") s with
  | Some rest =>
      let '(w, r) := span isWhiteSpace rest in
      let '(d, _) := span isDigit r in
      match w, d with
      | _ :: _, _ :: _ =>
          Some ((length (js "**Total Messages:**") + length w + length d)%nat, d)
      | _, _ => None
      end
  | None => None
  end.

End Regex.

(** * ragGenerator.js *)

Module RagGenerator.
Import Regex.

(** The synchronous [fs] calls of the module over a map from paths to
    contents. *)
Abbreviation FS := (gmap jsstring jsstring).

Definition existsSync (fs : FS) (path : jsstring) : bool :=
  bool_decide (is_Some (fs !! path)).

Definition readFileSync (fs : FS) (path : jsstring) : Outcome jsstring :=
  match fs !! path with
  | Some content => Return content
  | None => Throw (Error (js "ENOENT: no such file or directory, open '"
                            ++ path ++ js "'"))
  end.

Definition writeFileSync (fs : FS) (path content : jsstring) : FS :=
  <[path := content]> fs.

Record ChatMetadata := {
  topic : option jsstring;
  chatType : option jsstring;
  meta_createdDateTime : option jsstring;
}.

Record Member := { member_userId : option jsstring; member_displayName : option jsstring }.

Record SourceIds := {
  chatId : option jsstring;
  teamId : option jsstring;
  channelId : option jsstring;
}.

Definition truthy (s : option jsstring) : option jsstring :=
  match s with
  | Some [] => None
  | _ => s
  end.

(** [a || b] on strings that may be missing. *)
Definition orElse (a : option jsstring) (b : option jsstring) : option jsstring :=
  match truthy a with
  | Some x => Some x
  | None => b
  end.

(** The member lookup built by [members.forEach]: later members overwrite
    earlier ones with the same id. *)
Definition memberMapOf (members : list Member) : gmap jsstring jsstring :=
  fold_left
    (fun memberMap member =>
       match truthy (member_userId member) with
       | Some uid =>
           <[uid := default (js "Unknown User") (truthy (member_displayName member))]>
             memberMap
       | None => memberMap
       end)
    members ∅.

Definition opt (o : option jsstring) (line : jsstring -> jsstring) : list jsstring :=
  match truthy o with
  | Some x => [line x]
  | None => []
  end.

(** [generateHeader], in the order of its pushes: the lines that precede
    the count, the count, the creation date, the two last-run lines.  [now]
    is the [new Date()] it reads. *)
Definition leadingLines (metadata : ChatMetadata) (options : SourceIds) : list jsstring :=
  [js "# Teams Chat Export for RAG"; []]
  ++ opt (topic metadata) (fun t => js "**Topic:** " ++ t)
  ++ opt (chatType metadata) (fun t => js "**Chat Type:** " ++ t)
  ++ match truthy (teamId options), truthy (channelId options), truthy (chatId options) with
     | Some team, Some channel, _ =>
         [js "**Source:** Channel (Team: " ++ take 8 team ++ js "..., Channel: "
            ++ take 8 channel ++ js "...)"]
     | _, _, Some chat => [js "**Source:** Chat (" ++ take 8 chat ++ js "...)"]
     | _, _, None => []
     end.

Definition countLine (messageCount : N) : jsstring :=
  js "**Total Messages:** " ++ numberToString messageCount.

Definition createdLines (h : Host) (metadata : ChatMetadata) : list jsstring :=
  opt (meta_createdDateTime metadata)
    (fun c => js "**Created:** " ++ toLocaleString h (Date_parse h c)).

Definition lastRunLine (h : Host) (now : Z) : jsstring :=
  js "**Last Run:** " ++ toISOString h now.

Definition lastRunLocalLine (h : Host) (now : Z) : jsstring :=
  js "**Last Run (Local):** " ++ toLocaleString h (ValidDate now).

Definition generateHeader (h : Host) (now : Z) (metadata : ChatMetadata)
    (messageCount : N) (options : SourceIds) : jsstring :=
  let header :=
    leadingLines metadata options
    ++ [countLine messageCount]
    ++ createdLines h metadata
    ++ [lastRunLine h now; lastRunLocalLine h now] in
  join newline header.

(** *** cleanMessageContent *)

Definition isLetter (upper : N) (c : N) : bool := (c =? upper) || (c =? upper + 32).

(** [/<br\s*\/?>/gi] *)
Definition reBr (s : jsstring) : option (nat * unit) :=
  match s with
  | 60 :: b :: r :: rest =>
      if isLetter 66 b && isLetter 82 r then
        let '(w, t) := span isWhiteSpace rest in
        match t with
        | 47 :: 62 :: _ => Some ((3 + length w + 2)%nat, ())
        | 62 :: _ => Some ((3 + length w + 1)%nat, ())
        | _ => None
        end
      else None
  | _ => None
  end.

(** [/<\/p>/gi] *)
Definition reCloseP (s : jsstring) : option (nat * unit) :=
  match s with
  | 60 :: 47 :: p :: 62 :: _ => if isLetter 80 p then Some (4%nat, ()) else None
  | _ => None
  end.

(** [/<[^>]+>/g] *)
Definition reTag (s : jsstring) : option (nat * unit) :=
  match s with
  | 60 :: rest =>
      let '(a, b) := span (fun c => negb (c =? 62)) rest in
      match a, b with
      | _ :: _, 62 :: _ => Some ((1 + length a + 1)%nat, ())
      | _, _ => None
      end
  | _ => None
  end.

Definition cleanMessageContent (content contentType : jsstring) : jsstring :=
  if str_eqb contentType (js "html") then
    trim
      (replaceAll (lit (js "&quot;")) [34]
      (replaceAll (lit (js "&gt;")) (js ">")
      (replaceAll (lit (js "&lt;")) (js "<")
      (replaceAll (lit (js "&amp;")) (js "&")
      (replaceAll (lit (js "&nbsp;")) (js " ")
      (replaceAll reTag []
      (replaceAll reCloseP (newline ++ newline)
      (replaceAll reBr newline content))))))))
  else content.

(** *** formatMessage *)

Definition senderName (msg : Message) (memberMap : gmap jsstring jsstring) : jsstring :=
  let user := from_user msg in
  default (js "Unknown User")
    (orElse (user ≫= displayName)
       (orElse (match truthy (user ≫= userId) with
                | Some uid => memberMap !! uid
                | None => None
                end)
          None)).

Definition nonEmpty {A : Type} (l : option (list A)) : list A := default [] l.

Definition formatMessage (h : Host) (msg : Message)
    (memberMap : gmap jsstring jsstring) (includeMetadata : bool) : jsstring :=
  let timestamp :=
    if includeMetadata
    then js " - " ++ toLocaleTimeString h (Date_parse h (createdDateTime msg))
    else [] in
  let parts :=
    [js "**" ++ senderName msg memberMap ++ js "**" ++ timestamp]
    ++ match body msg with
       | Some b =>
           match content b with
           | [] => []
           | _ => [cleanMessageContent (content b) (contentType b)]
           end
       | None => []
       end
    ++ match nonEmpty (attachments msg) with
       | [] => []
       | atts =>
           [[]; js "*Attachments:*"]
           ++ ((fun att =>
                  js "- " ++ default (js "Attachment")
                               (orElse (att_name att) (orElse (att_contentType att) None)))
               <$> atts)
       end
    ++ match nonEmpty (reactions msg) with
       | [] => []
       | rs => [js "*Reactions: " ++ join (js ", ") (reactionType <$> rs) ++ js "*"]
       end
    ++ [[]] in
  join newline parts.

(** *** generateGroupedByDate

    [grouped] and [dateObjects] are objects keyed by the locale date string;
    they are modelled as association lists in insertion order, which is the
    order [Object.keys] enumerates string keys in.  (A locale date string is
    neither an array index nor the name of a member of [Object.prototype].) *)

Definition dateOf (h : Host) (msg : Message) : Date := Date_parse h (createdDateTime msg).

Definition dateStrOf (h : Host) (msg : Message) : jsstring :=
  toLocaleDateString h (dateOf h msg).

Fixpoint getProp {V : Type} (key : jsstring) (obj : list (jsstring * V)) : option V :=
  match obj with
  | [] => None
  | (k, v) :: rest => if str_eqb k key then Some v else getProp key rest
  end.

(** [obj[key].push(x)] on a key that is present. *)
Fixpoint pushAt {V : Type} (key : jsstring) (x : V) (obj : list (jsstring * list V))
    : list (jsstring * list V) :=
  match obj with
  | [] => []
  | (k, v) :: rest =>
      if str_eqb k key then (k, v ++ [x]) :: rest else (k, v) :: pushAt key x rest
  end.

Definition groupStep (h : Host)
    (st : list (jsstring * list Message) * list (jsstring * Date)) (msg : Message)
    : list (jsstring * list Message) * list (jsstring * Date) :=
  let '(grouped, dateObjects) := st in
  let dateObj := dateOf h msg in
  let dateStr := toLocaleDateString h dateObj in
  let '(grouped, dateObjects) :=
    match getProp dateStr grouped with
    | Some _ => (grouped, dateObjects)
    | None => (grouped ++ [(dateStr, [])], dateObjects ++ [(dateStr, dateObj)])
    end in
  (pushAt dateStr msg grouped, dateObjects).

Definition groupMessages (h : Host) (messages : list Message)
    : list (jsstring * list Message) * list (jsstring * Date) :=
  fold_left (groupStep h) messages ([], []).

(** [Array.prototype.sort] with a comparator: stable. *)
Fixpoint insertSorted {A : Type} (cmp : A -> A -> Z) (x : A) (l : list A) : list A :=
  match l with
  | [] => [x]
  | y :: l' => if (cmp x y <=? 0)%Z then x :: l else y :: insertSorted cmp x l'
  end.

Fixpoint sortWith {A : Type} (cmp : A -> A -> Z) (l : list A) : list A :=
  match l with
  | [] => []
  | x :: l' => insertSorted cmp x (sortWith cmp l')
  end.

Definition dateObjectAt (dateObjects : list (jsstring * Date)) (k : jsstring) : Date :=
  default InvalidDate (getProp k dateObjects).

(** [Object.keys(grouped).sort((a, b) => dateObjects[a] - dateObjects[b])] *)
Definition sortedDates (grouped : list (jsstring * list Message))
    (dateObjects : list (jsstring * Date)) : list jsstring :=
  sortWith (fun a b => Date_sub (dateObjectAt dateObjects a) (dateObjectAt dateObjects b))
    (grouped.*1).

(** The date sections in output order: heading and messages of each. *)
Definition dateSections (h : Host) (messages : list Message)
    : list (jsstring * list Message) :=
  let '(grouped, dateObjects) := groupMessages h messages in
  (fun date => (date, default [] (getProp date grouped)))
    <$> sortedDates grouped dateObjects.


(** What [grouped] and [dateObjects] hold once the messages [seen] have
    been visited: under each date string the messages that carry it, in the
    order seen, and the date object of the first of them. *)
Definition groupInv (h : Host) (seen : list Message)
    (st : list (jsstring * list Message) * list (jsstring * Date)) : Prop :=
  st.1.*1 = st.2.*1
  /\ NoDup (st.1.*1)
  /\ (forall k, getProp k st.1 =
                match filter (fun m => dateStrOf h m = k) seen with
                | [] => None
                | l => Some l
                end)
  /\ (forall k, getProp k st.2 =
                dateOf h <$> head (filter (fun m => dateStrOf h m = k) seen)).

Definition generateGroupedByDate (h : Host) (messages : list Message)
    (memberMap : gmap jsstring jsstring) (includeMetadata : bool) : jsstring :=
  let parts :=
    concat
      ((fun '(date, msgs) =>
          [js "## " ++ date ++ newline]
          ++ ((fun msg => formatMessage h msg memberMap includeMetadata) <$> msgs)
          ++ [[]])
       <$> dateSections h messages) in
  join newline parts.

Definition generateSequential (h : Host) (messages : list Message)
    (memberMap : gmap jsstring jsstring) (includeMetadata : bool) : jsstring :=
  let parts :=
    [js "## Chat Messages" ++ newline]
    ++ ((fun msg => formatMessage h msg memberMap includeMetadata) <$> messages) in
  join newline parts.

Record Options := {
  includeMetadata : bool;
  groupByDate : bool;
  ids : SourceIds;
}.

(** ['\n\n---\n\n'] *)
Definition separator : jsstring := newline ++ newline ++ js "---" ++ newline ++ newline.

Definition generateRAGDocument (h : Host) (now : Z) (messages : list Message)
    (metadata : ChatMetadata) (members : list Member) (options : Options) : jsstring :=
  let memberMap := memberMapOf members in
  (if includeMetadata options
   then generateHeader h now metadata (N.of_nat (length messages)) (ids options)
          ++ separator
   else [])
  ++ (if groupByDate options
      then generateGroupedByDate h messages memberMap (includeMetadata options)
      else generateSequential h messages memberMap (includeMetadata options)).

(** [saveRAGDocument]: directories are not modelled, the write succeeds. *)
Definition saveRAGDocument (fs : FS) (content outputPath : jsstring) : FS :=
  writeFileSync fs outputPath content.

Definition exportFileExists (fs : FS) (outputPath : jsstring) : bool :=
  existsSync fs outputPath.

(** *** parseExistingExport *)

Record ExportMetadata := {
  lastRun : option Date;
  lastRunISO : option jsstring;
  source : option jsstring;
  totalMessages : N;
}.

Definition parseLine (h : Host) (metadata : ExportMetadata) (line : jsstring)
    : ExportMetadata :=
  let metadata :=
    match search reLastRun line with
    | Some (_, _, cap) =>
        {| lastRun := Some (Date_parse h (trim cap));
           lastRunISO := Some (trim cap);
           source := source metadata;
           totalMessages := totalMessages metadata |}
    | None => metadata
    end in
  let metadata :=
    match search reSource line with
    | Some (_, _, cap) =>
        {| lastRun := lastRun metadata;
           lastRunISO := lastRunISO metadata;
           source := Some (trim cap);
           totalMessages := totalMessages metadata |}
    | None => metadata
    end in
  match search reTotalMessages line with
  | Some (_, _, digits) =>
      {| lastRun := lastRun metadata;
         lastRunISO := lastRunISO metadata;
         source := source metadata;
         totalMessages := parseInt digits |}
  | None => metadata
  end.

(** The [for (const line of lines)] loop, with its [break] at the
    separator (the separator line itself is still examined). *)
Fixpoint parseLines (h : Host) (metadata : ExportMetadata) (lines : list jsstring)
    : ExportMetadata :=
  match lines with
  | [] => metadata
  | line :: rest =>
      let metadata := parseLine h metadata line in
      if str_eqb (trim line) (js "---") then metadata
      else parseLines h metadata rest
  end.

Definition parseExistingExport (h : Host) (fs : FS) (outputPath : jsstring)
    : option ExportMetadata :=
  if existsSync fs outputPath then
    match readFileSync fs outputPath with
    | Return content =>
        Some (parseLines h
                {| lastRun := None; lastRunISO := None; source := None;
                   totalMessages := 0 |}
                (splitLines content))
    | Throw _ => None
    end
  else None.

(** *** appendMessagesToExport *)

Definition updateHeader (h : Host) (now : Z) (existingContent : jsstring)
    (appended : N) : jsstring :=
  let updatedContent :=
    match search reTotalMessages existingContent with
    | Some (_, _, digits) =>
        let oldCount := parseInt digits in
        let newCount := oldCount + appended in
        replaceFirst reTotalMessages
          (js "**Total Messages:** " ++ numberToString newCount) existingContent
    | None => existingContent
    end in
  let updatedContent :=
    replaceFirst reLastRun (js "**Last Run:** " ++ toISOString h now) updatedContent in
  replaceFirst reLastRunLocal
    (js "**Last Run (Local):** " ++ toLocaleString h (ValidDate now)) updatedContent.

Definition appendMessagesToExport (h : Host) (now : Z) (fs : FS)
    (outputPath : jsstring) (newMessages : list Message)
    (memberMap : gmap jsstring jsstring) (includeMetadata groupByDate : bool)
    : FS * Outcome N :=
  match newMessages with
  | [] => (fs, Return 0)
  | _ =>
      match readFileSync fs outputPath with
      | Throw e => (fs, Throw e)
      | Return existingContent =>
          let updatedContent :=
            updateHeader h now existingContent (N.of_nat (length newMessages)) in
          let newContent :=
            if groupByDate
            then generateGroupedByDate h newMessages memberMap includeMetadata
            else generateSequential h newMessages memberMap includeMetadata in
          let updatedContent := updatedContent ++ newline ++ newContent in
          (writeFileSync fs outputPath updatedContent,
           Return (N.of_nat (length newMessages)))
      end
  end.

(** *** Headers whose fields are plain text

    A text is quiet when it holds no asterisk and no line terminator; a date
    rendering is moreover expected to begin with a visible character. *)

Definition quiet (s : jsstring) : Prop :=
  Forall (fun c => c <> 42 /\ isLineTerminator c = false) s.

Definition quietOpt (o : option jsstring) : Prop :=
  match o with
  | Some s => quiet s
  | None => True
  end.

Definition dateText (s : jsstring) : Prop :=
  quiet s /\ match s with c :: _ => isWhiteSpace c = false | [] => False end.

Record PlainFields (h : Host) (metadata : ChatMetadata) (options : SourceIds) : Prop := {
  plain_topic : quietOpt (topic metadata);
  plain_chatType : quietOpt (chatType metadata);
  plain_created :
    quietOpt ((fun c => toLocaleString h (Date_parse h c)) <$> meta_createdDateTime metadata);
  plain_chatId : quietOpt (chatId options);
  plain_teamId : quietOpt (teamId options);
  plain_channelId : quietOpt (channelId options);
}.

Definition PlainClock (h : Host) (now : Z) : Prop :=
  dateText (toISOString h now) /\ dateText (toLocaleString h (ValidDate now)).

(** [label] cannot begin inside [s], whatever text follows [s]. *)
Definition safe (label s : jsstring) : Prop :=
  forall rest i, (i < length s)%nat -> stripPrefix label (drop i (s ++ rest)) = None.

(** [label] and [s] differ at a position both have. *)
Fixpoint differs (label s : jsstring) : bool :=
  match label, s with
  | c :: label', d :: s' => if c =? d then differs label' s' else true
  | _, _ => false
  end.

Definition safeFixed (label s : jsstring) : bool :=
  forallb (fun i => differs label (drop i s)) (seq 0 (length s)).

(** A header line the reader passes over: the count label does not occur
    in it, it holds no line break and it is not the separator. *)
Definition passedLine (line : jsstring) : Prop :=
  safe (js "**Total Messages:**") line
  /\ Forall (fun c => c <> 10) line
  /\ trim line <> js "---".

(** The checks on the fixed text a header line begins with. *)
Definition fixedStart (fixed : jsstring) : bool :=
  safeFixed (js "**Total Messages:**") fixed
  && forallb (fun c => negb (c =? 10)) fixed
  && match fixed with
     | c :: _ => negb (isWhiteSpace c) && negb (c =? 45)
     | [] => false
     end.

(** Lines, each followed by a newline. *)
Definition unlines (lines : list jsstring) : jsstring :=
  concat ((fun line => line ++ newline) <$> lines).

(** The count the reader keeps, line after line. *)
Fixpoint countLines (count : N) (lines : list jsstring) : N :=
  match lines with
  | [] => count
  | line :: rest =>
      let count :=
        match search reTotalMessages line with
        | Some (_, _, digits) => parseInt digits
        | None => count
        end in
      if str_eqb (trim line) (js "---") then count else countLines count rest
  end.

(** The three labels the appender looks for. *)
Inductive headerLabel : jsstring -> Prop :=
| label_total : headerLabel (js "**Total Messages:**")
| label_lastRun : headerLabel (js "**Last Run:**")
| label_lastRunLocal : headerLabel (js "**Last Run (Local):**").

End RagGenerator.

(** * index.js: the [generate] command, from the incremental-mode
    detection to the written export *)

Module Index.
Import RagGenerator.

Inductive Source :=
| Chat (chatId : jsstring)
| Channel (teamId channelId : jsstring).

(** Step 4: [isIncremental] and [sinceDate].  [existingExport.lastRun] is
    [null] or a [Date] object, and every object is truthy. *)
Definition detectIncremental (h : Host) (fs : FS) (outputPath : jsstring)
    : bool * option Date :=
  if exportFileExists fs outputPath then
    match parseExistingExport h fs outputPath with
    | Some existingExport =>
        match lastRun existingExport with
        | Some d => (true, Some d)
        | None => (false, None)
        end
    | None => (false, None)
    end
  else (false, None).

Inductive Run :=
| Exit (code : N)                              (* process.exit(code) *)
| Success (isIncremental : bool) (count : nat).

Definition sourceIds (src : Source) : SourceIds :=
  match src with
  | Chat c => {| chatId := Some c; teamId := None; channelId := None |}
  | Channel t c => {| chatId := None; teamId := Some t; channelId := Some c |}
  end.

(** Steps 4 and 5 of the action: detect, fetch, then append or generate.
    Returns how the run ends, the file system it leaves and the requests
    sent to the remote listing. *)
Definition generate (h : Host) (now : Z) (fs : FS) (outputPath : jsstring)
    (src : Source) (accessToken : jsstring) (maxMessages : option Z)
    (metadata : ChatMetadata) (members : list Member)
    (includeMetadata groupByDate : bool) (remote : TeamsClient.Remote)
    : Run * FS * list TeamsClient.Request :=
  let '(isIncremental, sinceDate) := detectIncremental h fs outputPath in
  let '(fetched, log) :=
    match src with
    | Channel teamId channelId =>
        TeamsClient.fetchChannelMessages h accessToken teamId channelId
          maxMessages sinceDate remote
    | Chat chatId =>
        TeamsClient.fetchChatMessages h accessToken chatId maxMessages sinceDate remote
    end in
  match fetched with
  | Throw _ => (Exit 1, fs, log)
  | Return [] => (Exit 0, fs, log)
  | Return messages =>
      if isIncremental then
        match appendMessagesToExport h now fs outputPath messages
                (memberMapOf members) includeMetadata groupByDate with
        | (fs', Return appendedCount) => (Success true (length messages), fs', log)
        | (fs', Throw _) => (Exit 1, fs', log)
        end
      else
        let document :=
          generateRAGDocument h now messages metadata members
            {| RagGenerator.includeMetadata := includeMetadata;
               RagGenerator.groupByDate := groupByDate;
               ids := sourceIds src |} in
        (Success false (length messages), saveRAGDocument fs document outputPath, log)
  end.

End Index.

(** * ragOptimizer.js *)

Module RagOptimizer.
Import Regex.

Definition MAX_CHUNK_SIZE : Z := 100000.

Definition atLineEnd (s : jsstring) : bool :=
  match s with
  | [] => true
  | c :: _ => isLineTerminator c
  end.

(** [/^## \d+\/\d+\/\d+$/gm] at a position where [^] holds: the length of
    the heading.  Digits and [/] are disjoint, each run is taken whole. *)
Definition reDateSection (s : jsstring) : option nat :=
  match stripPrefix (js "## ") s with
  | Some r =>
      let '(d1, r1) := span isDigit r in
      match d1, r1 with
      | _ :: _, 47 :: r2 =>
          let '(d2, r3) := span isDigit r2 in
          match d2, r3 with
          | _ :: _, 47 :: r4 =>
              let '(d3, r5) := span isDigit r4 in
              match d3 with
              | _ :: _ =>
                  if atLineEnd r5
                  then Some (3 + length d1 + 1 + length d2 + 1 + length d3)%nat
                  else None
              | [] => None
              end
          | _, _ => None
          end
      | _, _ => None
      end
  | None => None
  end.

Record Match := { index : nat; text : jsstring }.

(** The [while ((match = regex.exec(content)) !== null)] loop: every match
    from left to right, the search resuming at the end of the previous one.
    [lineStart] says whether [^] holds at the current position, [skip] how
    much of the current match is still to be passed over. *)
Fixpoint execAll (lineStart : bool) (pos skip : nat) (s : jsstring) : list Match :=
  match s with
  | [] => []
  | c :: s' =>
      let continue := execAll (isLineTerminator c) (S pos) in
      match skip with
      | S k => continue k s'
      | O =>
          if lineStart then
            match reDateSection s with
            | Some n => {| index := pos; text := take n s |} :: continue (n - 1)%nat s'
            | None => continue 0%nat s'
            end
          else continue 0%nat s'
      end
  end.

(** [content.substring(start, end)] *)
Definition substring (content : jsstring) (from to : nat) : jsstring :=
  let lo := Nat.min (Nat.min from to) (length content) in
  let hi := Nat.min (Nat.max from to) (length content) in
  take (hi - lo) (drop lo content).

(** The "Extract sections" loop: from each match to the next one, the last
    to the end of the content. *)
Fixpoint extractSections (content : jsstring) (matches : list Match) : list jsstring :=
  match matches with
  | [] => []
  | m :: rest =>
      let stop :=
        match rest with
        | next :: _ => index next
        | [] => length content
        end in
      substring content (index m) stop :: extractSections content rest
  end.

(** One turn of the "Combine sections" loop over [(chunks, currentChunk)]. *)
Definition combineStep (maxChunkSize : Z) (st : list jsstring * jsstring)
    (section : jsstring) : list jsstring * jsstring :=
  let '(chunks, currentChunk) := st in
  if (maxChunkSize <? Z.of_nat (length currentChunk + length section))%Z
     && negb (length currentChunk =? 0)%nat
  then (chunks ++ [currentChunk], section)
  else (chunks, currentChunk ++ section).

Definition combineSections (maxChunkSize : Z) (sections : list jsstring)
    : list jsstring :=
  let '(chunks, currentChunk) :=
    fold_left (combineStep maxChunkSize) sections ([], []) in
  match currentChunk with
  | [] => chunks
  | _ => chunks ++ [currentChunk]
  end.

Definition splitIntoChunks (content : jsstring) (maxChunkSize : Z) : list jsstring :=
  let matches := execAll true 0 0 content in
  let sections := extractSections content matches in
  match combineSections maxChunkSize sections with
  | [] => [content]
  | chunks => chunks
  end.

(** A chunk made of the sections [g] observes the budget: it is within
    [maxChunkSize], or [g] is a single section that exceeds it on its own. *)
Definition fits (maxChunkSize : Z) (g : list jsstring) : Prop :=
  g <> []
  /\ ((Z.of_nat (length (concat g)) <= maxChunkSize)%Z
      \/ exists sec, g = [sec] /\ (maxChunkSize < Z.of_nat (length sec))%Z).

(** Where the expression of [splitIntoChunks] matches, said without the
    scan: position [i] starts a line ([lineStart] tells it for position 0)
    and a heading that ends its line begins there. *)
Definition markerFrom (lineStart : bool) (s : jsstring) (i : nat) : bool :=
  match i with
  | O => lineStart
  | S j => match s !! j with
           | Some c => isLineTerminator c
           | None => false
           end
  end
  && bool_decide (is_Some (reDateSection (drop i s))).

Definition markerAt (content : jsstring) (i : nat) : bool := markerFrom true content i.

Definition sectionsOf (content : jsstring) : list jsstring :=
  extractSections content (execAll true 0 0 content).

(** The date sections of a document, said without the scan and without
    the extraction loop: the positions where a date heading begins a line,
    in increasing order, and the text from each of them up to the next one,
    the last up to the end of the document. *)
Definition markerPositions (content : jsstring) : list nat :=
  List.filter (markerAt content) (seq 0 (length content)).

Fixpoint slices (content : jsstring) (positions : list nat) : list jsstring :=
  match positions with
  | [] => []
  | p :: rest =>
      match rest with
      | q :: _ => take (q - p) (drop p content)
      | [] => drop p content
      end :: slices content rest
  end.

Definition markedSections (content : jsstring) : list jsstring :=
  slices content (markerPositions content).

(** The bound on chunk sizes, for one document and budget: every chunk is
    within the budget, or is a single date section that exceeds it. *)
Definition ChunkBound (content : jsstring) (maxChunkSize : Z) : Prop :=
  forall chunk, chunk ∈ splitIntoChunks content maxChunkSize ->
    (Z.of_nat (length chunk) <= maxChunkSize)%Z
    \/ (chunk ∈ markedSections content
        /\ (maxChunkSize < Z.of_nat (length chunk))%Z).

(** *** parseClaudeResponse *)

Definition fence : jsstring := [96; 96; 96].

(** [([\s\S]*?)\s*```]: the shortest text after which only white space
    separates from a closing fence; with it the length consumed. *)
Fixpoint lazyToFence (s : jsstring) : option (jsstring * nat) :=
  let '(w, t) := span isWhiteSpace s in
  match stripPrefix fence t with
  | Some _ => Some ([], (length w + 3)%nat)
  | None =>
      match s with
      | [] => None
      | c :: s' =>
          match lazyToFence s' with
          | Some (cap, n) => Some (c :: cap, S n)
          | None => None
          end
      end
  end.

(** [/```json\s*([\s\S]*?)\s*```/] with [opener] the fence and [json],
    [/```\s*([\s\S]*?)\s*```/] with [opener] the fence alone. *)
Definition reFenced (opener : jsstring) (s : jsstring) : option (nat * jsstring) :=
  match stripPrefix opener s with
  | Some rest =>
      let '(w, r) := span isWhiteSpace rest in
      match lazyToFence r with
      | Some (cap, n) => Some ((length opener + length w + n)%nat, cap)
      | None => None
      end
  | None => None
  end.

(** The text handed to [JSON.parse]. *)
Definition jsonString (response : jsstring) : jsstring :=
  match search (reFenced (fence ++ js "json")) response with
  | Some (_, _, cap) => cap
  | None =>
      match search (reFenced fence) response with
      | Some (_, _, cap) => cap
      | None => response
      end
  end.

(** No fence occurs anywhere in [s]. *)
Definition noFence (s : jsstring) : Prop :=
  forall i, stripPrefix fence (drop i s) = None.

(** [obj[key] = v]: in place when the key exists, at the end otherwise. *)
Fixpoint setProp (key : jsstring) (v : Json) (obj : list (jsstring * Json))
    : list (jsstring * Json) :=
  match obj with
  | [] => [(key, v)]
  | (k, v') :: rest =>
      if str_eqb k key then (k, v) :: rest else (k, v') :: setProp key v rest
  end.

(** The own enumerable properties [{...parsed}] copies. *)
Definition spread (parsed : Json) : list (jsstring * Json) :=
  match parsed with
  | JObject members => fold_left (fun obj '(k, v) => setProp k v obj) members []
  | JArray items =>
      imap (fun i v => (numberToString (N.of_nat i), v)) items
  | JString str =>
      imap (fun i c => (numberToString (N.of_nat i), JString [c])) str
  | _ => []
  end.

Definition parseClaudeResponse (h : Host) (response : jsstring) (chunkIndex : nat)
    : Outcome Json :=
  match JSON_parse h (jsonString response) with
  | Some parsed =>
      Return (JObject (setProp (js "chunkIndex")
                         (JNumber (numberToString (N.of_nat chunkIndex)))
                         (spread parsed)))
  | None => Throw (Error (js "Failed to parse Claude response"))
  end.

(** *** optimizeForRAG: the chunk loop

    Chunks are processed one after the other, each result pushed onto
    [processedChunks]; the first failure aborts the run.  [process i total
    chunk] stands for [processChunkWithClaude] on chunk [i]. *)
Fixpoint processChunks {R : Type} (process : nat -> nat -> jsstring -> Outcome R)
    (total i : nat) (chunks : list jsstring) : Outcome (list R) :=
  match chunks with
  | [] => Return []
  | chunk :: rest =>
      match process i total chunk with
      | Throw e => Throw e
      | Return processed =>
          match processChunks process total (S i) rest with
          | Return processedChunks => Return (processed :: processedChunks)
          | Throw e => Throw e
          end
      end
  end.

(** [processChunkWithClaude]; [service] answers the request built from the
    chunk and its position with the text of the reply, or fails. *)
Definition processChunkWithClaude (h : Host)
    (service : jsstring -> nat -> nat -> Outcome jsstring)
    (chunkIndex totalChunks : nat) (chunk : jsstring) : Outcome Json :=
  match service chunk chunkIndex totalChunks with
  | Return result => parseClaudeResponse h result chunkIndex
  | Throw e => Throw e
  end.

(** *** Aggregation

    A processed chunk of the shape the prompt asks for; a field the reply
    left out is [None]. *)

Record Decision := {
  summary : jsstring;
  details : jsstring;
  participants : option (list jsstring);
}.

Record ActionItem := { task : jsstring; owner : option jsstring; context : jsstring }.

Record ContextSummary := {
  timeframe : option jsstring;
  cs_topic : jsstring;
  cs_summary : jsstring;
  keyPoints : option (list jsstring);
}.

Record TechnicalDetail := { td_type : jsstring; td_content : jsstring; td_context : jsstring }.

Record ProcessedChunk := {
  topics : option (list jsstring);
  decisions : option (list Decision);
  actionItems : option (list ActionItem);
  contextSummaries : option (list ContextSummary);
  technicalDetails : option (list TechnicalDetail);
  chunkIndex : nat;
}.

(** [Set.prototype.add]: a [Set] iterates in insertion order. *)
Definition setAdd (set : list jsstring) (t : jsstring) : list jsstring :=
  if bool_decide (t ∈ set) then set else set ++ [t].

(** [processedChunks.forEach(chunk => chunk.topics?.forEach(t => allTopics.add(t)))] *)
Definition allTopics (processedChunks : list ProcessedChunk) : list jsstring :=
  fold_left (fun set chunk => fold_left setAdd (default [] (topics chunk)) set)
    processedChunks [].

(** [allDecisions.push(...(chunk.decisions || []))] for each chunk *)
Definition allDecisions (processedChunks : list ProcessedChunk) : list Decision :=
  fold_left (fun all chunk => all ++ default [] (decisions chunk)) processedChunks [].

Definition allActionItems (processedChunks : list ProcessedChunk) : list ActionItem :=
  fold_left (fun all chunk => all ++ default [] (actionItems chunk)) processedChunks [].

(** [processedChunks.flatMap(chunk => chunk.contextSummaries || [])] *)
Definition allContextSummaries (processedChunks : list ProcessedChunk)
    : list ContextSummary :=
  processedChunks ≫= (fun chunk => default [] (contextSummaries chunk)).

(** [processedChunks.flatMap(chunk => chunk.technicalDetails || [])] *)
Definition allTechnicalDetails (processedChunks : list ProcessedChunk)
    : list TechnicalDetail :=
  processedChunks ≫= (fun chunk => default [] (technicalDetails chunk)).

(** What a chunk contributes to each collection. *)
Definition topicsOf (chunk : ProcessedChunk) : list jsstring := default [] (topics chunk).
Definition decisionsOf (chunk : ProcessedChunk) : list Decision := default [] (decisions chunk).
Definition actionItemsOf (chunk : ProcessedChunk) : list ActionItem :=
  default [] (actionItems chunk).
Definition contextSummariesOf (chunk : ProcessedChunk) : list ContextSummary :=
  default [] (contextSummaries chunk).
Definition technicalDetailsOf (chunk : ProcessedChunk) : list TechnicalDetail :=
  default [] (technicalDetails chunk).

(** A list without its repetitions, each element at its first occurrence. *)
Fixpoint firstOccurrences (l : list jsstring) : list jsstring :=
  match l with
  | [] => []
  | x :: l' => x :: filter (fun y => y <> x) (firstOccurrences l')
  end.

(** [x] occurs in [l] somewhere before an occurrence of [y]. *)
Definition precedes {A : Type} (x y : A) (l : list A) : Prop :=
  exists l1 l2 l3, l = l1 ++ x :: l2 ++ y :: l3.

End RagOptimizer.

(** * A sample host: UTC clock, en-US renderings

    Used to run the definitions on concrete inputs.  It reads the ISO-8601
    form [YYYY-MM-DDTHH:mm:ss.sssZ] that [toISOString] writes (and the same
    without milliseconds) and rejects everything else. *)

Module SampleHost.
Local Open Scope Z_scope.

Definition days_from_civil (y m d : Z) : Z :=
  let y := if m <=? 2 then y - 1 else y in
  let era := y / 400 in
  let yoe := y - era * 400 in
  let doy := (153 * (if 2 <? m then m - 3 else m + 9) + 2) / 5 + d - 1 in
  let doe := yoe * 365 + yoe / 4 - yoe / 100 + doy in
  era * 146097 + doe - 719468.

Definition civil_from_days (z : Z) : Z * Z * Z :=
  let z := z + 719468 in
  let era := z / 146097 in
  let doe := z - era * 146097 in
  let yoe := (doe - doe / 1460 + doe / 36524 - doe / 146096) / 365 in
  let doy := doe - (365 * yoe + yoe / 4 - yoe / 100) in
  let mp := (5 * doy + 2) / 153 in
  let d := doy - (153 * mp + 2) / 5 + 1 in
  let m := if mp <? 10 then mp + 3 else mp - 9 in
  ((if m <=? 2 then yoe + era * 400 + 1 else yoe + era * 400), m, d).

Definition num (digits : jsstring) : option Z :=
  if forallb isDigit digits then Some (Z.of_N (parseInt digits)) else None.

Definition field (s : jsstring) (from len : nat) : option Z :=
  let f := take len (drop from s) in
  if (length f =? len)%nat then num f else None.

Definition sepAt (s : jsstring) (i : nat) (c : string) : bool :=
  bool_decide (take 1 (drop i s) = js c).

Definition parseISO (s : jsstring) : Date :=
  let shape :=
    sepAt s 4 "-" && sepAt s 7 "-" && sepAt s 10 "T" && sepAt s 13 ":"
    && sepAt s 16 ":" in
  let tail := drop 19 s in
  let ms :=
    if bool_decide (tail = js "Z") then Some 0
    else if sepAt s 19 "." && sepAt s 23 "Z" && (length s =? 24)%nat
         then field s 20 3 else None in
  match field s 0 4, field s 5 2, field s 8 2,
        field s 11 2, field s 14 2, field s 17 2, ms with
  | Some y, Some mo, Some d, Some hh, Some mi, Some ss, Some ms =>
      if shape && (1 <=? mo) && (mo <=? 12) && (1 <=? d) && (d <=? 31)
         && (hh <=? 23) && (mi <=? 59) && (ss <=? 59)
      then ValidDate
             ((((days_from_civil y mo d * 24 + hh) * 60 + mi) * 60 + ss) * 1000 + ms)
      else InvalidDate
  | _, _, _, _, _, _, _ => InvalidDate
  end.

Definition show (n : Z) : jsstring := numberToString (Z.to_N n).

Definition pad (width : nat) (n : Z) : jsstring :=
  let d := show n in
  repeat 48%N (width - length d) ++ d.

Definition isoString (t : Z) : jsstring :=
  let day := t / 86400000 in
  let rem := t mod 86400000 in
  let '(y, m, d) := civil_from_days day in
  pad 4 y ++ js "-" ++ pad 2 m ++ js "-" ++ pad 2 d ++ js "T"
    ++ pad 2 (rem / 3600000) ++ js ":" ++ pad 2 (rem / 60000 mod 60) ++ js ":"
    ++ pad 2 (rem / 1000 mod 60) ++ js "." ++ pad 3 (rem mod 1000) ++ js "Z".

Definition localeDate (d : Date) : jsstring :=
  match d with
  | InvalidDate => js "Invalid Date"
  | ValidDate t =>
      let '(y, m, d) := civil_from_days (t / 86400000) in
      show m ++ js "/" ++ show d ++ js "/" ++ show y
  end.

Definition localeTime (d : Date) : jsstring :=
  match d with
  | InvalidDate => js "Invalid Date"
  | ValidDate t =>
      let rem := t mod 86400000 in
      let hh := rem / 3600000 in
      let h12 := if hh mod 12 =? 0 then 12 else hh mod 12 in
      show h12 ++ js ":" ++ pad 2 (rem / 60000 mod 60) ++ js ":"
        ++ pad 2 (rem / 1000 mod 60) ++ (if hh <? 12 then js " AM" else js " PM")
  end.

Definition localeString (d : Date) : jsstring :=
  match d with
  | InvalidDate => js "Invalid Date"
  | ValidDate _ => localeDate d ++ js ", " ++ localeTime d
  end.

(** JSON text (ECMA-404). *)

Definition isJsonSpace (c : N) : bool :=
  ((c =? 32) || (c =? 9) || (c =? 10) || (c =? 13))%N.

Definition skipSpace (s : jsstring) : jsstring := (Regex.span isJsonSpace s).2.

Definition isHex (c : N) : bool :=
  (isDigit c || ((65 <=? c) && (c <=? 70)) || ((97 <=? c) && (c <=? 102)))%N.

Definition hexValue (c : N) : N :=
  (if isDigit c then c - 48 else if c <=? 70 then c - 55 else c - 87)%N.

Fixpoint jsonString (s acc : jsstring) : option (jsstring * jsstring) :=
  match s with
  | [] => None
  | 34%N :: rest => Some (acc, rest)
  | 92%N :: 117%N :: a :: b :: c :: d :: rest =>
      if isHex a && isHex b && isHex c && isHex d
      then jsonString rest
             (acc ++ [((hexValue a * 16 + hexValue b) * 16 + hexValue c) * 16
                      + hexValue d])%N
      else None
  | 92%N :: e :: rest =>
      match
        (if e =? 34 then Some 34 else if e =? 92 then Some 92
         else if e =? 47 then Some 47 else if e =? 98 then Some 8
         else if e =? 102 then Some 12 else if e =? 110 then Some 10
         else if e =? 114 then Some 13 else if e =? 116 then Some 9
         else None)%N
      with
      | Some c => jsonString rest (acc ++ [c])
      | None => None
      end
  | c :: rest => if (c <? 32)%N then None else jsonString rest (acc ++ [c])
  end.

(** A number: optional minus, an integer part without leading zero, an
    optional fraction and an optional exponent. *)
Definition jsonNumber (s : jsstring) : option (jsstring * jsstring) :=
  let '(sign, s1) := match s with 45%N :: r => ([45%N], r) | _ => ([], s) end in
  let '(int, s2) := Regex.span isDigit s1 in
  let intOk :=
    match int with
    | [] => false
    | [_] => true
    | 48%N :: _ => false
    | _ => true
    end in
  let '(frac, s3) :=
    match s2 with
    | 46%N :: r =>
        let '(f, r') := Regex.span isDigit r in
        match f with [] => ([46%N], s2) | _ => (46%N :: f, r') end
    | _ => ([], s2)
    end in
  let fracOk := negb (bool_decide (frac = [46%N])) in
  let '(expo, s4) :=
    match s3 with
    | e :: r =>
        if ((e =? 101) || (e =? 69))%N then
          let '(sg, r1) :=
            match r with
            | c :: r1 => if ((c =? 43) || (c =? 45))%N then ([c], r1) else ([], r)
            | [] => ([], r)
            end in
          let '(ds, r2) := Regex.span isDigit r1 in
          match ds with [] => ([e], s3) | _ => (e :: sg ++ ds, r2) end
        else ([], s3)
    | [] => ([], s3)
    end in
  let expoOk := negb (length expo =? 1)%nat in
  if intOk && fracOk && expoOk then Some (sign ++ int ++ frac ++ expo, s4) else None.

Fixpoint jsonValue (fuel : nat) (s : jsstring) : option (Json * jsstring) :=
  match fuel with
  | O => None
  | S fuel =>
      match skipSpace s with
      | 110%N :: 117%N :: 108%N :: 108%N :: r => Some (JNull, r)
      | 116%N :: 114%N :: 117%N :: 101%N :: r => Some (JBool true, r)
      | 102%N :: 97%N :: 108%N :: 115%N :: 101%N :: r => Some (JBool false, r)
      | 34%N :: r =>
          match jsonString r [] with
          | Some (str, r') => Some (JString str, r')
          | None => None
          end
      | 91%N :: r =>
          match skipSpace r with
          | 93%N :: r' => Some (JArray [], r')
          | _ => jsonElements fuel r []
          end
      | 123%N :: r =>
          match skipSpace r with
          | 125%N :: r' => Some (JObject [], r')
          | _ => jsonMembers fuel r []
          end
      | t =>
          match jsonNumber t with
          | Some (lexeme, r) => Some (JNumber lexeme, r)
          | None => None
          end
      end
  end
with jsonElements (fuel : nat) (s : jsstring) (acc : list Json)
    : option (Json * jsstring) :=
  match fuel with
  | O => None
  | S fuel =>
      match jsonValue fuel s with
      | Some (v, r) =>
          match skipSpace r with
          | 44%N :: r' => jsonElements fuel r' (acc ++ [v])
          | 93%N :: r' => Some (JArray (acc ++ [v]), r')
          | _ => None
          end
      | None => None
      end
  end
with jsonMembers (fuel : nat) (s : jsstring) (acc : list (jsstring * Json))
    : option (Json * jsstring) :=
  match fuel with
  | O => None
  | S fuel =>
      match skipSpace s with
      | 34%N :: r =>
          match jsonString r [] with
          | Some (key, r1) =>
              match skipSpace r1 with
              | 58%N :: r2 =>
                  match jsonValue fuel r2 with
                  | Some (v, r3) =>
                      match skipSpace r3 with
                      | 44%N :: r4 => jsonMembers fuel r4 (acc ++ [(key, v)])
                      | 125%N :: r4 => Some (JObject (acc ++ [(key, v)]), r4)
                      | _ => None
                      end
                  | None => None
                  end
              | _ => None
              end
          | None => None
          end
      | _ => None
      end
  end.

Definition parseJSON (s : jsstring) : option Json :=
  match jsonValue (2 * length s + 2) s with
  | Some (v, r) => match skipSpace r with [] => Some v | _ => None end
  | None => None
  end.

(** JSON text written with ['] for the double quote. *)
Definition json (s : string) : jsstring :=
  (fun c => if (c =? 39)%N then 34%N else c) <$> js s.

Definition host : Host := {|
  JSON_parse := parseJSON;
  Date_parse := parseISO;
  toISOString := isoString;
  toLocaleString := localeString;
  toLocaleDateString := localeDate;
  toLocaleTimeString := localeTime;
|}.

(** A plain-text message from [sender] at [when]. *)
Definition message (ident sender when text : string) : Message := {|
  msg_id := js ident;
  createdDateTime := js when;
  from_user := Some {| displayName := Some (js sender); userId := None |};
  body := Some {| content := js text; contentType := js "text" |};
  attachments := None;
  reactions := None;
|}.

(** An export whose chat topic happens to read like the count line. *)
Module LabelInTopic.

Definition metadata : RagGenerator.ChatMetadata := {|
  RagGenerator.topic := Some (js "**Total Messages:** 7");
  RagGenerator.chatType := Some (js "group");
  RagGenerator.meta_createdDateTime := None;
|}.

Definition firstRun : list Message :=
  [message "1" "Ana" "2025-10-05T09:00:00.000Z" "one";
   message "2" "Bo" "2025-10-05T09:05:00.000Z" "two";
   message "3" "Ana" "2025-10-05T09:10:00.000Z" "three"].

Definition newMessages : list Message :=
  [message "4" "Bo" "2025-10-07T08:00:00.000Z" "four";
   message "5" "Ana" "2025-10-07T08:01:00.000Z" "five"].

Definition path : jsstring := js "output/chat.md".

(** The file after the first run, at 2025-10-06T15:52:35.123Z. *)
Definition fs : RagGenerator.FS :=
  RagGenerator.saveRAGDocument ∅
    (RagGenerator.generateRAGDocument host 1759765955123 firstRun metadata []
       {| RagGenerator.includeMetadata := true;
          RagGenerator.groupByDate := true;
          RagGenerator.ids :=
            {| RagGenerator.chatId := Some (js "19:abc");
               RagGenerator.teamId := None;
               RagGenerator.channelId := None |} |})
    path.

(** The second run, a day later, appends the two new messages. *)
Definition appended : RagGenerator.FS * Outcome N :=
  RagGenerator.appendMessagesToExport host 1759852355123 fs path newMessages ∅
    true true.

End LabelInTopic.

End SampleHost.

(** An export whose last-run field is not a date. *)
Module BrokenExport.

Definition content : jsstring := js
"# Teams Chat Export for RAG

**Topic:** Dev chat
**Total Messages:** 1
**Last Run:** yesterday
**Last Run (Local):** 10/6/2025, 3:52:35 PM

---

## 10/6/2025

**Ana** - 9:00:00 AM
hello

".

Definition path : jsstring := js "output/chat-Dev-chat.md".

Definition fs : RagGenerator.FS := {[ path := content ]}.

End BrokenExport.

(** * Statements shared by several theorems *)

(** The claim for one value of the cap: whenever the loop has accumulated
    more than [cap] messages, the fetch returns exactly [cap] of them, the
    most recent ones, the dropped ones being the front of the chronological
    sequence [rev acc]. *)
Definition CapTruncation (cap : Z) : Prop :=
  forall (h : Host) (baseUrl notFound forbidden failed tok : jsstring)
         (sinceDate : option Date) (remote : TeamsClient.Remote)
         (url : jsstring) (acc : list Message) (log : list TeamsClient.Request),
    TeamsClient.firstUrl h baseUrl sinceDate = Return url ->
    TeamsClient.pageLoop tok (Some cap) url remote [] 0 [] = (inl acc, log) ->
    (cap < Z.of_nat (length acc))%Z ->
    exists out older : list Message,
      TeamsClient.fetchWith h baseUrl notFound forbidden failed tok
        (Some cap) sinceDate remote = (Return out, log)
      /\ Z.of_nat (length out) = cap
      /\ rev acc = older ++ out.


(** * Properties of the fetch loops *)

Module FetchFacts.
Import TeamsClient.

Lemma sliceFromEnd_pos (ms : list Message) (cap : Z) :
  (0 < cap)%Z -> (cap < Z.of_nat (length ms))%Z ->
  sliceFromEnd ms cap = drop (length ms - Z.to_nat cap) ms.
Proof.
  intros Hpos Hlt. unfold sliceFromEnd.
  replace (- cap <? 0)%Z with true by (symmetry; apply Z.ltb_lt; lia).
  f_equal. lia.
Qed.

Lemma finish_cap (ms : list Message) (cap : Z) :
  (0 < cap)%Z -> (cap < Z.of_nat (length ms))%Z ->
  finish (Some cap) ms = rev (take (Z.to_nat cap) ms).
Proof.
  intros Hpos Hlt. unfold finish.
  replace (cap =? 0)%Z with false by (symmetry; apply Z.eqb_neq; lia).
  rewrite length_rev.
  replace (cap <? Z.of_nat (length ms))%Z with true
    by (symmetry; apply Z.ltb_lt; lia).
  cbn [negb andb].
  rewrite sliceFromEnd_pos by (rewrite ?length_rev; lia).
  rewrite length_rev.
  rewrite <- (take_drop (Z.to_nat cap) ms) at 2.
  rewrite rev_app_distr, drop_app_length'; [done|].
  rewrite length_rev, length_drop. lia.
Qed.

(** The messages a fetch returns and the number of requests it issues do
    not depend on the URL it starts from: the loop never reads it. *)
Lemma pageLoop_url tok cap u1 u2 remote ms n log1 log2 :
  (pageLoop tok cap u1 remote ms n log1).1
    = (pageLoop tok cap u2 remote ms n log2).1
  /\ (length log1 = length log2 ->
      length (pageLoop tok cap u1 remote ms n log1).2
        = length (pageLoop tok cap u2 remote ms n log2).2).
Proof.
  revert u1 u2 ms n log1 log2.
  induction remote as [e|batch|batch next rest IH]; intros; cbn [pageLoop].
  - cbn. split; [done|]. intros. rewrite !length_app. cbn. lia.
  - cbn. split; [done|]. intros. rewrite !length_app. cbn. lia.
  - destruct (capReached cap (n + length batch)).
    + cbn. split; [done|]. intros. rewrite !length_app. cbn. lia.
    + destruct next as [|c next].
      * cbn. split; [done|]. intros. rewrite !length_app. cbn. lia.
      * destruct (IH (c :: next) (c :: next) (ms ++ batch)
                    (n + length batch)%nat
                    (log1 ++ [{| url := u1; bearer := tok |}])
                    (log2 ++ [{| url := u2; bearer := tok |}])) as [IH1 IH2].
        split; [done|]. intros Hlen. apply IH2.
        rewrite !length_app. cbn. lia.
Qed.

(** With a valid [sinceDate] a fetch returns exactly what it returns with
    none, after as many requests: the cutoff only changes the first URL. *)
Lemma fetchWith_ignores_sinceDate h base nf fb fl tok cap t remote :
  (fetchWith h base nf fb fl tok cap (Some (ValidDate t)) remote).1
    = (fetchWith h base nf fb fl tok cap None remote).1
  /\ length (fetchWith h base nf fb fl tok cap (Some (ValidDate t)) remote).2
    = length (fetchWith h base nf fb fl tok cap None remote).2.
Proof.
  unfold fetchWith, firstUrl, Date_toISOString.
  set (u1 := base ++ _).
  destruct (pageLoop_url tok cap u1 base remote [] 0 [] []) as [H1 H2].
  specialize (H2 eq_refl).
  destruct (pageLoop tok cap u1 remote [] 0 []) as [[ms1|e1] log1],
           (pageLoop tok cap base remote [] 0 []) as [[ms2|e2] log2];
    cbn in *; try discriminate; split; congruence.
Qed.

(** The loop reads a cap of 0 as no cap. *)
Lemma pageLoop_cap_zero tok remote : forall url ms n log,
  pageLoop tok (Some 0%Z) url remote ms n log = pageLoop tok None url remote ms n log.
Proof.
  induction remote as [e|value|value nextLink rest IH]; intros url ms n log;
    cbn [pageLoop capReached]; [done|done|].
  cbn [Z.eqb negb andb]. destruct nextLink; [done|]. apply IH.
Qed.

End FetchFacts.

(** * C5: truncation to the cap *)

(** C5, as amended: for every positive cap, a fetch (chat or channel: both
    are [fetchWith]) that accumulated more than [cap] messages returns
    exactly [cap] messages, and they are the last [cap] of the chronological
    sequence, so the oldest messages are the ones removed.  A cap of 0 is
    read as no cap: the fetch is the one made with [null], and it returns
    all the messages the loop accumulated, none removed. *)
Theorem cap_truncation_positive (cap : Z) :
  ((0 < cap)%Z -> CapTruncation cap)
  /\ forall (h : Host) (baseUrl notFound forbidden failed tok : jsstring)
            (sinceDate : option Date) (remote : TeamsClient.Remote),
       TeamsClient.fetchWith h baseUrl notFound forbidden failed tok (Some 0%Z)
         sinceDate remote
       = TeamsClient.fetchWith h baseUrl notFound forbidden failed tok None
           sinceDate remote
       /\ forall (url : jsstring) (acc : list Message)
                 (log : list TeamsClient.Request),
            TeamsClient.firstUrl h baseUrl sinceDate = Return url ->
            TeamsClient.pageLoop tok (Some 0%Z) url remote [] 0 [] = (inl acc, log) ->
            TeamsClient.fetchWith h baseUrl notFound forbidden failed tok (Some 0%Z)
              sinceDate remote
            = (Return (rev acc), log).
Proof.
  split.
  - intros Hpos h base nf fb fl tok since remote url acc log Hurl Hloop Hlen.
    exists (rev (take (Z.to_nat cap) acc)), (rev (drop (Z.to_nat cap) acc)).
    unfold TeamsClient.fetchWith. rewrite Hurl, Hloop.
    rewrite FetchFacts.finish_cap by done.
    split; [done|]. split.
    + rewrite length_rev, length_take. lia.
    + rewrite <- rev_app_distr, take_drop. done.
  - intros h base nf fb fl tok since remote. split.
    + unfold TeamsClient.fetchWith.
      destruct (TeamsClient.firstUrl h base since) as [url|e]; [|done].
      rewrite FetchFacts.pageLoop_cap_zero.
      by destruct (TeamsClient.pageLoop tok None url remote [] 0 []) as [[ms|e] log].
    + intros url acc log Hurl Hloop. unfold TeamsClient.fetchWith.
      by rewrite Hurl, Hloop.
Qed.

(** C5 as stated ("every non-null cap") fails at cap 0: [maxMessages && ...]
    reads 0 as "no cap", so two accumulated messages are both returned. *)
Lemma cap_truncation_zero_fails : ~ CapTruncation 0.
Proof.
  intros H.
  pose (m1 := SampleHost.message "1" "Ana" "2025-10-06T10:00:00.000Z" "hi").
  pose (m2 := SampleHost.message "2" "Bo" "2025-10-06T09:00:00.000Z" "yo").
  destruct (H SampleHost.host (js "u") [] [] [] (js "t") None
              (TeamsClient.LastPage [m1; m2]) (js "u") [m1; m2]
              [{| TeamsClient.url := js "u"; TeamsClient.bearer := js "t" |}]
              eq_refl eq_refl ltac:(cbn; lia))
    as (out & older & Hfetch & Hlen & _).
  cbv in Hfetch. inversion Hfetch; subst out. cbn in Hlen. lia.
Qed.

Lemma cap_truncation_positive_witness :
  exists out older : list Message,
    TeamsClient.fetchWith SampleHost.host (TeamsClient.chatUrl (js "19:abc")) [] [] []
      (js "t") (Some 1%Z) None
      (TeamsClient.LastPage
         [SampleHost.message "2" "Bo" "2025-10-06T10:00:00.000Z" "new";
          SampleHost.message "1" "Ana" "2025-10-06T09:00:00.000Z" "old"])
    = (Return out,
       [{| TeamsClient.url := TeamsClient.chatUrl (js "19:abc");
           TeamsClient.bearer := js "t" |}])
    /\ Z.of_nat (length out) = 1%Z
    /\ rev [SampleHost.message "2" "Bo" "2025-10-06T10:00:00.000Z" "new";
            SampleHost.message "1" "Ana" "2025-10-06T09:00:00.000Z" "old"]
       = older ++ out.
Proof.
  apply (proj1 (cap_truncation_positive 1) ltac:(lia) SampleHost.host
           (TeamsClient.chatUrl (js "19:abc")) [] [] [] (js "t") None _
           (TeamsClient.chatUrl (js "19:abc")));
    [reflexivity | reflexivity | cbn; lia].
Defined.

(** * C1: what the fetchers do with a cutoff *)

(** C1, the code at a failing input.  The cutoff is 2025-10-06T15:52:35.123Z
    and every message of the first page is older.  Both fetchers keep the
    whole page, follow its continuation link and return the messages of both
    pages: nothing is filtered and the loop does not stop. *)
Theorem fetch_keeps_pages_at_or_before_cutoff :
  let cutoff := 1759765955123%Z in
  let page1 :=
    [SampleHost.message "3" "Ana" "2025-10-06T15:00:00.000Z" "third";
     SampleHost.message "2" "Bo" "2025-10-06T14:00:00.000Z" "second"] in
  let page2 := [SampleHost.message "1" "Ana" "2025-10-05T09:00:00.000Z" "first"] in
  let remote := TeamsClient.Page page1 (js "https://graph.example/next") (TeamsClient.LastPage page2) in
  Forall (fun m => exists t, Date_parse SampleHost.host (createdDateTime m) = ValidDate t
                             /\ (t <= cutoff)%Z) page1
  /\ TeamsClient.fetchChatMessages SampleHost.host (js "token") (js "19:abc")
       None (Some (ValidDate cutoff)) remote
     = (Return (rev page2 ++ rev page1),
        [{| TeamsClient.url :=
              TeamsClient.chatUrl (js "19:abc")
                ++ js "&$filter=createdDateTime gt 2025-10-06T15:52:35.123Z";
            TeamsClient.bearer := js "token" |};
         {| TeamsClient.url := js "https://graph.example/next";
            TeamsClient.bearer := js "token" |}])
  /\ TeamsClient.fetchChannelMessages SampleHost.host (js "token") (js "team") (js "chan")
       None (Some (ValidDate cutoff)) remote
     = (Return (rev page2 ++ rev page1),
        [{| TeamsClient.url :=
              TeamsClient.channelUrl (js "team") (js "chan")
                ++ js "&$filter=createdDateTime gt 2025-10-06T15:52:35.123Z";
            TeamsClient.bearer := js "token" |};
         {| TeamsClient.url := js "https://graph.example/next";
            TeamsClient.bearer := js "token" |}]).
Proof.
  cbv zeta. split; [|split].
  - repeat constructor; eexists; (split; [vm_compute; reflexivity | lia]).
  - vm_compute. reflexivity.
  - vm_compute. reflexivity.
Qed.

(** * C4: appending nothing *)

(** C4: with no new message [appendMessagesToExport] returns 0 and leaves
    the file system as it was: no file is read or written, whatever the path
    holds (or does not hold). *)
Theorem append_nothing_is_noop (h : Host) (now : Z) (fs : RagGenerator.FS)
    (outputPath : jsstring) (memberMap : gmap jsstring jsstring)
    (includeMetadata groupByDate : bool) :
  RagGenerator.appendMessagesToExport h now fs outputPath [] memberMap
    includeMetadata groupByDate = (fs, Return 0%N).
Proof. reflexivity. Qed.

(** * C3: an export whose last-run field is not a date *)

(** Whenever the reader hands back an invalid date, the run takes the
    incremental branch and the fetcher throws before its first request. *)
Lemma invalid_lastRun_exits h now fs outputPath src tok cap metadata members im gd remote ex :
  RagGenerator.exportFileExists fs outputPath = true ->
  RagGenerator.parseExistingExport h fs outputPath = Some ex ->
  RagGenerator.lastRun ex = Some InvalidDate ->
  Index.detectIncremental h fs outputPath = (true, Some InvalidDate)
  /\ Index.generate h now fs outputPath src tok cap metadata members im gd remote
     = (Index.Exit 1, fs, []).
Proof.
  intros Hex Hparse Hlast.
  assert (Hd : Index.detectIncremental h fs outputPath = (true, Some InvalidDate)).
  { unfold Index.detectIncremental. by rewrite Hex, Hparse, Hlast. }
  split; [done|].
  unfold Index.generate. rewrite Hd. by destruct src.
Qed.

(** C3, the code at a failing input: the header reads [**Last Run:**
    yesterday].  The reader returns the invalid date it got from [new Date],
    the run is taken to be incremental with that date as cutoff, and the
    fetch throws on [toISOString]: the run exits with code 1, no request
    sent and no full fetch made. *)
Theorem unparseable_lastRun_ends_run :
  (RagGenerator.lastRun <$>
     RagGenerator.parseExistingExport SampleHost.host BrokenExport.fs BrokenExport.path)
    = Some (Some InvalidDate)
  /\ Index.detectIncremental SampleHost.host BrokenExport.fs BrokenExport.path
     = (true, Some InvalidDate)
  /\ forall remote,
       Index.generate SampleHost.host 1759765955123 BrokenExport.fs BrokenExport.path
         (Index.Chat (js "19:abc")) (js "token") None
         {| RagGenerator.topic := Some (js "Dev chat");
            RagGenerator.chatType := None;
            RagGenerator.meta_createdDateTime := None |}
         [] true true remote
       = (Index.Exit 1, BrokenExport.fs, []).
Proof.
  assert (Hp : RagGenerator.lastRun <$>
     RagGenerator.parseExistingExport SampleHost.host BrokenExport.fs BrokenExport.path
    = Some (Some InvalidDate)) by (vm_compute; reflexivity).
  destruct (RagGenerator.parseExistingExport SampleHost.host BrokenExport.fs
              BrokenExport.path) as [ex|] eqn:Hparse; [|discriminate].
  cbn in Hp. injection Hp as Hlast.
  assert (Hex : RagGenerator.exportFileExists BrokenExport.fs BrokenExport.path = true)
    by (vm_compute; reflexivity).
  split; [cbn; by rewrite Hlast|]. split.
  - by apply (invalid_lastRun_exits SampleHost.host 0 _ _ (Index.Chat []) [] None
                 {| RagGenerator.topic := None; RagGenerator.chatType := None;
                    RagGenerator.meta_createdDateTime := None |}
                 [] true true (TeamsClient.LastPage []) ex).
  - intros remote. by apply (invalid_lastRun_exits _ _ _ _ _ _ _ _ _ _ _ _ ex).
Qed.

(** * Decimal numerals *)

Module NumberFacts.

Lemma fold_digits (l : jsstring) (a : N) :
  fold_left (fun acc c => 10 * acc + (c - 48)) l a
    = a * 10 ^ N.of_nat (length l) + parseInt l.
Proof.
  unfold parseInt. revert a. induction l as [|d l IH]; intros a.
  - cbn. lia.
  - cbn [fold_left length]. rewrite IH, (IH (10 * 0 + (d - 48))).
    rewrite Nat2N.inj_succ, N.pow_succ_r'. lia.
Qed.

Lemma parseInt_cons (d : N) (l : jsstring) :
  parseInt (d :: l) = (d - 48) * 10 ^ N.of_nat (length l) + parseInt l.
Proof. unfold parseInt at 1. cbn [fold_left]. rewrite fold_digits. lia. Qed.

Lemma digitsOf_value (fuel : nat) : forall n acc,
  n < 10 ^ N.of_nat (S fuel) ->
  parseInt (digitsOf fuel n acc) = n * 10 ^ N.of_nat (length acc) + parseInt acc.
Proof.
  induction fuel as [|fuel IH]; intros n acc Hn.
  - cbn [digitsOf]. rewrite parseInt_cons.
    change (10 ^ N.of_nat 1) with 10 in Hn.
    rewrite N.mod_small by done. by rewrite (N.add_comm 48), N.add_sub.
  - cbn [digitsOf]. destruct (n <? 10) eqn:Hsmall.
    + apply N.ltb_lt in Hsmall. rewrite parseInt_cons.
      rewrite N.mod_small by done. by rewrite (N.add_comm 48), N.add_sub.
    + rewrite IH.
      * rewrite parseInt_cons. cbn [length].
        rewrite Nat2N.inj_succ, N.pow_succ_r'.
        pose proof (N.div_mod n 10 ltac:(lia)) as Hdm.
        rewrite (N.add_comm 48), N.add_sub.
        set (q := n / 10) in *. set (r := n mod 10) in *.
        set (P := 10 ^ N.of_nat (length acc)).
        transitivity ((10 * q + r) * P + parseInt acc); [ring|by rewrite <- Hdm].
      * rewrite Nat2N.inj_succ, N.pow_succ_r' in Hn.
        apply N.Div0.div_lt_upper_bound. lia.
Qed.

Lemma log2_bound (n : N) : n < 10 ^ N.of_nat (S (N.to_nat (N.log2 n))).
Proof.
  rewrite Nat2N.inj_succ, N2Nat.id.
  destruct (N.eq_dec n 0) as [->|Hn]; [cbn; lia|].
  pose proof (N.log2_spec n ltac:(lia)) as [_ Hlt].
  eapply N.lt_le_trans; [exact Hlt|].
  apply N.pow_le_mono_l. lia.
Qed.

(** Printing a count and reading it back. *)
Lemma parseInt_numberToString (n : N) : parseInt (numberToString n) = n.
Proof.
  unfold numberToString. rewrite digitsOf_value by apply log2_bound.
  cbn. lia.
Qed.

Lemma digitsOf_digits (fuel : nat) : forall n acc,
  Forall (fun c => isDigit c = true) acc ->
  Forall (fun c => isDigit c = true) (digitsOf fuel n acc).
Proof.
  assert (Hd : forall n, isDigit (48 + n mod 10) = true).
  { intros n. unfold isDigit.
    pose proof (N.mod_upper_bound n 10 ltac:(lia)) as Hr.
    set (r := n mod 10) in *. clearbody r.
    apply andb_true_iff. split; apply N.leb_le; lia. }
  induction fuel as [|fuel IH]; intros n acc Hacc; cbn [digitsOf].
  - by constructor.
  - destruct (n <? 10); [by constructor|]. apply IH. by constructor.
Qed.

Lemma numberToString_digits (n : N) :
  Forall (fun c => isDigit c = true) (numberToString n).
Proof. apply digitsOf_digits. constructor. Qed.

Lemma digitsOf_nonempty (fuel : nat) : forall n acc, digitsOf fuel n acc <> [].
Proof.
  induction fuel as [|fuel IH]; intros n acc; cbn [digitsOf]; [done|].
  destruct (n <? 10); [done|apply IH].
Qed.

Lemma numberToString_nonempty (n : N) : numberToString n <> [].
Proof. apply digitsOf_nonempty. Qed.

End NumberFacts.

(** * Matchers *)

Module RegexFacts.
Import Regex.

Lemma span_app (f : N -> bool) (a b : jsstring) :
  Forall (fun c => f c = true) a ->
  match b with [] => True | c :: _ => f c = false end ->
  span f (a ++ b) = (a, b).
Proof.
  intros Ha Hb. induction a as [|c a IH]; cbn.
  - destruct b as [|c b]; cbn; [done|]. by rewrite Hb.
  - apply Forall_cons_1 in Ha as [Hc Ha]. by rewrite Hc, IH.
Qed.

Lemma span_spec (f : N -> bool) (s : jsstring) :
  s = (span f s).1 ++ (span f s).2
  /\ Forall (fun c => f c = true) (span f s).1
  /\ match (span f s).2 with [] => True | c :: _ => f c = false end.
Proof.
  induction s as [|c s IH]; cbn; [by repeat constructor|].
  destruct (f c) eqn:Hc.
  - destruct (span f s) as [a b]. cbn in *.
    destruct IH as (-> & Ha & Hb). repeat split; [by constructor|done].
  - cbn. repeat split; [constructor|done].
Qed.

Lemma search_none {C : Type} (m : jsstring -> option (nat * C)) s :
  (forall i, m (drop i s) = None) -> search m s = None.
Proof.
  induction s as [|c s IH]; intros H; pose proof (H 0%nat) as H0;
    cbn in H0; cbn; rewrite H0; [done|].
  rewrite IH; [done|]. intros i. apply (H (S i)).
Qed.

Lemma search_at {C : Type} (m : jsstring -> option (nat * C)) (n : nat) :
  forall s len c,
    (forall i, (i < n)%nat -> m (drop i s) = None) ->
    m (drop n s) = Some (len, c) ->
    (n <= length s)%nat ->
    search m s = Some (n, len, c).
Proof.
  induction n as [|n IH]; intros s len c Hnone Hhit Hlen.
  - destruct s; cbn in *; by rewrite Hhit.
  - destruct s as [|d s]; [cbn in Hlen; lia|].
    pose proof (Hnone 0%nat ltac:(lia)) as H0. cbn in H0.
    cbn [search]. rewrite H0.
    rewrite (IH s len c); [done| |done|cbn in Hlen; lia].
    intros i Hi. apply (Hnone (S i)). lia.
Qed.

Lemma search_head {C : Type} (m : jsstring -> option (nat * C)) s len c :
  m s = Some (len, c) -> search m s = Some (0%nat, len, c).
Proof. intros H. destruct s; cbn; by rewrite H. Qed.

Lemma stripPrefix_self (p s : jsstring) : stripPrefix p (p ++ s) = Some s.
Proof. induction p as [|c p IH]; cbn; [done|]. by rewrite N.eqb_refl. Qed.

Lemma stripPrefix_app (p q s : jsstring) :
  stripPrefix (p ++ q) s = stripPrefix p s ≫= stripPrefix q.
Proof.
  revert s. induction p as [|c p IH]; intros s; cbn; [done|].
  destruct s as [|d s]; [done|]. destruct (c =? d)%N; [apply IH|done].
Qed.

End RegexFacts.

(** * The chunk splitter *)

Module SplitFacts.
Import RagOptimizer.

Lemma reDateSection_nil : reDateSection [] = None.
Proof. reflexivity. Qed.

Lemma markerFrom_cons ls c s j :
  markerFrom ls (c :: s) (S j) = markerFrom (isLineTerminator c) s j.
Proof.
  unfold markerFrom. by destruct j as [|j].
Qed.

(** The scan finds the leftmost marker, and finds none only when there is
    none. *)
Lemma execAll_first s : forall ls pos,
  match execAll ls pos 0 s with
  | [] => forall j, markerFrom ls s j = false
  | m :: _ =>
      exists j, index m = (pos + j)%nat /\ markerFrom ls s j = true
                /\ forall i, (i < j)%nat -> markerFrom ls s i = false
  end.
Proof.
  induction s as [|c s IH]; intros ls pos.
  - cbn. intros j. unfold markerFrom. rewrite drop_nil, reDateSection_nil.
    rewrite bool_decide_eq_false_2 by (intros [? ?]; discriminate).
    apply andb_false_r.
  - cbn [execAll].
    assert (Hrest :
      markerFrom ls (c :: s) 0 = false ->
      match execAll (isLineTerminator c) (S pos) 0 s with
      | [] => forall j, markerFrom ls (c :: s) j = false
      | m :: _ =>
          exists j, index m = (pos + j)%nat /\ markerFrom ls (c :: s) j = true
                    /\ forall i, (i < j)%nat -> markerFrom ls (c :: s) i = false
      end).
    { intros H0. specialize (IH (isLineTerminator c) (S pos)).
      destruct (execAll (isLineTerminator c) (S pos) 0 s) as [|m ms].
      - intros [|j]; [done|]. rewrite markerFrom_cons. apply IH.
      - destruct IH as (j & Hj & Hm & Hmin). exists (S j).
        split; [lia|]. split; [by rewrite markerFrom_cons|].
        intros [|i] Hi; [done|]. rewrite markerFrom_cons. apply Hmin. lia. }
    destruct ls.
    + destruct (reDateSection (c :: s)) as [n|] eqn:Hre.
      * exists 0%nat. split; [cbn; lia|]. split; [|intros; lia].
        unfold markerFrom. cbn [drop]. rewrite Hre. by rewrite bool_decide_eq_true_2.
      * apply Hrest. unfold markerFrom. cbn [drop]. rewrite Hre.
        by rewrite bool_decide_eq_false_2 by (intros [? ?]; discriminate).
    + apply Hrest. done.
Qed.

Lemma execAll_bounds s : forall ls pos skip m,
  m ∈ execAll ls pos skip s ->
  (pos + skip <= index m < pos + length s)%nat.
Proof.
  induction s as [|c s IH]; intros ls pos skip m Hm; cbn [execAll] in Hm.
  - by apply elem_of_nil in Hm.
  - cbn [length]. destruct skip as [|k].
    + destruct ls; [destruct (reDateSection (c :: s)) as [n|]|].
      * apply elem_of_cons in Hm as [->|Hm]; [cbn; lia|].
        apply IH in Hm. lia.
      * apply IH in Hm. lia.
      * apply IH in Hm. lia.
    + apply IH in Hm. lia.
Qed.

Lemma execAll_sorted s : forall ls pos skip,
  StronglySorted (fun a b => (index a < index b)%nat) (execAll ls pos skip s).
Proof.
  induction s as [|c s IH]; intros ls pos skip; cbn [execAll]; [constructor|].
  destruct skip as [|k]; [|apply IH].
  destruct ls; [destruct (reDateSection (c :: s)) as [n|]|]; try apply IH.
  constructor; [apply IH|].
  apply Forall_forall. intros m Hm. apply execAll_bounds in Hm. cbn. lia.
Qed.

Lemma substring_ordered content a b :
  (a <= b <= length content)%nat ->
  substring content a b = take (b - a) (drop a content).
Proof.
  intros H. unfold substring.
  rewrite (Nat.min_l a b), (Nat.max_r a b), !Nat.min_l by lia. done.
Qed.

(** Sections are cut at the matches: together they are the content from the
    first match on, and none is empty. *)
Lemma extractSections_spec content : forall m ms,
  StronglySorted (fun a b => (index a < index b)%nat) (m :: ms) ->
  Forall (fun x => (index x < length content)%nat) (m :: ms) ->
  concat (extractSections content (m :: ms)) = drop (index m) content
  /\ Forall (fun sec => sec <> []) (extractSections content (m :: ms)).
Proof.
  intros m ms. revert m.
  induction ms as [|m' ms IH]; intros m Hs Hb.
  - cbn. apply Forall_cons_1 in Hb as [Hm _].
    rewrite substring_ordered by lia.
    rewrite take_ge by (rewrite length_drop; lia).
    rewrite app_nil_r. split; [done|].
    constructor; [|constructor].
    intros Hnil. apply (f_equal length) in Hnil. rewrite length_drop in Hnil.
    cbn in Hnil. lia.
  - apply StronglySorted_inv in Hs as [Hs Hlt].
    apply Forall_cons_1 in Hb as [Hm Hb].
    apply Forall_cons_1 in Hlt as [Hlt _].
    pose proof Hb as Hb'. apply Forall_cons_1 in Hb' as [Hm' _].
    destruct (IH m' Hs Hb) as [IHc IHn].
    change (extractSections content (m :: m' :: ms))
      with (substring content (index m) (index m')
              :: extractSections content (m' :: ms)).
    rewrite substring_ordered by lia. split.
    + cbn [concat]. rewrite IHc.
      replace (drop (index m') content)
        with (drop (index m' - index m) (drop (index m) content))
        by (rewrite drop_drop; f_equal; lia).
      apply take_drop.
    + constructor; [|done].
      intros Hnil. apply (f_equal length) in Hnil.
      rewrite length_take, length_drop in Hnil. cbn in Hnil. lia.
Qed.

Lemma concat_nonempty (g : list jsstring) :
  Forall (fun sec => sec <> []) g -> concat g = [] -> g = [].
Proof.
  destruct g as [|sec g]; [done|]. intros Hne Hc.
  apply Forall_cons_1 in Hne as [Hsec _]. cbn in Hc.
  by apply app_eq_nil in Hc as [? _].
Qed.

(** The invariant of the combining loop: the closed chunks and the open one
    are groups of whole consecutive sections. *)
Lemma combine_fold maxChunkSize (sections : list jsstring) :
  forall (chunks : list jsstring) (current : jsstring)
         (groups : list (list jsstring)) (g : list jsstring),
  Forall (fun sec => sec <> []) sections ->
  Forall (fun sec => sec <> []) g ->
  chunks = @concat N <$> groups -> current = concat g ->
  Forall (RagOptimizer.fits maxChunkSize) groups ->
  (g = [] \/ RagOptimizer.fits maxChunkSize g) ->
  exists groups' g',
    fold_left (combineStep maxChunkSize) sections (chunks, current)
      = (@concat N <$> groups', concat g')
    /\ concat groups' ++ g' = (concat groups ++ g) ++ sections
    /\ Forall (fun sec => sec <> []) g'
    /\ Forall (RagOptimizer.fits maxChunkSize) groups'
    /\ (g' = [] \/ RagOptimizer.fits maxChunkSize g').
Proof.
  induction sections as [|sec sections IH];
    intros chunks current groups g Hne Hg -> -> Hfit Hcur.
  - exists groups, g. cbn. by rewrite app_nil_r.
  - apply Forall_cons_1 in Hne as [Hsec Hne].
    cbn [fold_left]. unfold combineStep at 2.
    destruct ((maxChunkSize <? Z.of_nat (length (concat g) + length sec))%Z
              && negb (length (concat g) =? 0)%nat) eqn:Hcond.
    + apply andb_true_iff in Hcond as [Hbig Hpos].
      apply Z.ltb_lt in Hbig. apply negb_true_iff, Nat.eqb_neq in Hpos.
      assert (Hgne : g <> []) by (intros ->; by cbn in Hpos).
      destruct Hcur as [?|Hcur]; [done|].
      assert (H1 : Forall (fun s => s <> []) [sec]) by (by constructor).
      assert (H2 : (@concat N <$> groups) ++ [concat g]
                   = @concat N <$> (groups ++ [g])) by (by rewrite fmap_app).
      assert (H3 : sec = concat [sec]) by (cbn; by rewrite app_nil_r).
      assert (H4 : Forall (RagOptimizer.fits maxChunkSize) (groups ++ [g])).
      { apply Forall_app. split; [done|]. by constructor. }
      assert (H5 : [sec] = [] \/ RagOptimizer.fits maxChunkSize [sec]).
      { right. split; [done|].
        destruct (Z_le_gt_dec (Z.of_nat (length sec)) maxChunkSize).
        - left. cbn. rewrite app_nil_r. done.
        - right. exists sec. split; [done|lia]. }
      destruct (IH _ _ _ _ Hne H1 H2 H3 H4 H5)
        as (groups' & g' & Hfold & Hcat & Hne' & Hfit' & Hcur').
      exists groups', g'. split; [done|].
      split; [|done]. rewrite Hcat, concat_app. cbn.
      rewrite app_nil_r, <- !app_assoc. done.
    + assert (H1 : Forall (fun s => s <> []) (g ++ [sec])).
      { apply Forall_app. split; [done|]. by constructor. }
      assert (H3 : concat g ++ sec = concat (g ++ [sec])).
      { rewrite concat_app. cbn. by rewrite app_nil_r. }
      assert (H5 : g ++ [sec] = [] \/ RagOptimizer.fits maxChunkSize (g ++ [sec])).
      { right. split; [by destruct g|].
        destruct g as [|sec0 g0] eqn:Eg.
        - cbn. rewrite app_nil_r.
          destruct (Z_le_gt_dec (Z.of_nat (length sec)) maxChunkSize);
            [left; done|right; exists sec; split; [done|lia]].
        - left. rewrite <- Eg in *.
          apply andb_false_iff in Hcond as [Hsmall|Hzero].
          + apply Z.ltb_ge in Hsmall. rewrite concat_app, length_app. cbn.
            rewrite app_nil_r. lia.
          + apply negb_false_iff, Nat.eqb_eq in Hzero.
            apply length_zero_iff_nil in Hzero.
            apply concat_nonempty in Hzero; [|done]. congruence. }
      destruct (IH _ _ _ _ Hne H1 eq_refl H3 Hfit H5)
        as (groups' & g' & Hfold & Hcat & Hne' & Hfit' & Hcur').
      exists groups', g'. split; [done|]. split; [|done].
      rewrite Hcat, <- !app_assoc. done.
Qed.

Lemma combineSections_spec maxChunkSize (sections : list jsstring) :
  Forall (fun sec => sec <> []) sections ->
  exists groups : list (list jsstring),
    combineSections maxChunkSize sections = @concat N <$> groups
    /\ concat groups = sections
    /\ Forall (RagOptimizer.fits maxChunkSize) groups.
Proof.
  intros Hne. unfold combineSections.
  destruct (combine_fold maxChunkSize sections [] [] [] []) as
    (groups & g & Hfold & Hcat & Hg & Hfit & Hcur); try done; [by left|].
  rewrite Hfold. cbn in Hcat.
  destruct (concat g) as [|c rest] eqn:Hc.
  - apply concat_nonempty in Hc; [|done]. subst g.
    exists groups. rewrite app_nil_r in Hcat. done.
  - destruct Hcur as [->|Hcur]; [done|].
    exists (groups ++ [g]). rewrite fmap_app, concat_app. cbn.
    rewrite app_nil_r, Hc. split; [done|]. split; [done|].
    apply Forall_app. split; [done|]. by constructor.
Qed.

(** The sections of a document. *)
Lemma sections_spec content :
  match execAll true 0 0 content with
  | [] => extractSections content (execAll true 0 0 content) = []
  | m :: _ =>
      concat (extractSections content (execAll true 0 0 content))
        = drop (index m) content
      /\ (index m < length content)%nat
      /\ Forall (fun sec => sec <> [])
           (extractSections content (execAll true 0 0 content))
  end.
Proof.
  pose proof (execAll_sorted content true 0 0) as Hs.
  assert (Hb : Forall (fun x => (index x < length content)%nat)
                 (execAll true 0 0 content)).
  { apply Forall_forall. intros m Hm. apply execAll_bounds in Hm. lia. }
  destruct (execAll true 0 0 content) as [|m ms]; [done|].
  destruct (extractSections_spec content m ms Hs Hb) as [Hc Hn].
  split; [done|]. split; [|done]. by apply Forall_cons_1 in Hb as [? _].
Qed.

Lemma stripPrefix_Some (p : jsstring) : forall s r,
  stripPrefix p s = Some r -> s = p ++ r.
Proof.
  induction p as [|c p IH]; intros s r H; cbn in H; [by injection H as ->|].
  destruct s as [|d s]; [done|].
  destruct (c =? d) eqn:E; [|done]. apply N.eqb_eq in E as ->.
  cbn. f_equal. by apply IH.
Qed.

(** A heading lies within its text and holds no line terminator. *)
Lemma reDateSection_heading (s : jsstring) (n : nat) :
  reDateSection s = Some n ->
  (0 < n <= length s)%nat
  /\ Forall (fun c => isLineTerminator c = false) (take n s).
Proof.
  unfold reDateSection.
  destruct (stripPrefix (js "## ") s) as [r|] eqn:Hp; [|done].
  apply stripPrefix_Some in Hp as Hs.
  destruct (RegexFacts.span_spec isDigit r) as (H1 & Hd1 & _).
  destruct (Regex.span isDigit r) as [d1 r1]. cbn [fst snd] in *.
  destruct d1 as [|x1 d1]; [done|]. destruct r1 as [|c1 r2]; [done|].
  destruct c1 as [|c1]; [done|].
  do 7 (try (destruct c1 as [c1|c1|]; try done)).
  destruct (RegexFacts.span_spec isDigit r2) as (H2 & Hd2 & _).
  destruct (Regex.span isDigit r2) as [d2 r3]. cbn [fst snd] in *.
  destruct d2 as [|x2 d2]; [done|]. destruct r3 as [|c2 r4]; [done|].
  destruct c2 as [|c2]; [done|].
  do 7 (try (destruct c2 as [c2|c2|]; try done)).
  destruct (RegexFacts.span_spec isDigit r4) as (H3 & Hd3 & _).
  destruct (Regex.span isDigit r4) as [d3 r5]. cbn [fst snd] in *.
  destruct d3 as [|x3 d3]; [done|].
  destruct (atLineEnd r5); [|done]. intros [= <-].
  subst s r r2 r4. clear Hp.
  set (hd := js "## " ++ (x1 :: d1) ++ 47 :: (x2 :: d2) ++ 47 :: (x3 :: d3)).
  assert (Hw : js "## " ++ (x1 :: d1) ++ 47 :: (x2 :: d2) ++ 47 :: (x3 :: d3) ++ r5
               = hd ++ r5).
  { subst hd. by rewrite <- ?app_assoc, <- ?app_comm_cons, <- ?app_assoc. }
  rewrite Hw.
  assert (Hn : S (S (S (S (length d1 + 1 + S (length d2) + 1 + S (length d3)))))
               = length hd).
  { subst hd. rewrite !length_app. cbn [length]. rewrite !length_app. cbn [length].
    change (length (js "## ")) with 3%nat. lia. }
  rewrite Hn, take_app_length, length_app. split; [rewrite <- Hn; lia|].
  assert (Hdig : forall d, Forall (fun c => isDigit c = true) d ->
                   Forall (fun c => isLineTerminator c = false) d).
  { intros d Hd. eapply Forall_impl; [exact Hd|]. intros c Hc.
    unfold isDigit in Hc. apply andb_true_iff in Hc as [Hlo Hhi].
    apply N.leb_le in Hlo, Hhi. unfold isLineTerminator.
    repeat (apply orb_false_iff; split); apply N.eqb_neq; lia. }
  subst hd. apply Forall_app_2; [repeat constructor|].
  apply Forall_app_2; [by apply Hdig|]. constructor; [done|].
  apply Forall_app_2; [by apply Hdig|]. constructor; [done|]. by apply Hdig.
Qed.

(** The scan finds the positions where a heading begins a line, all of
    them and in order. *)
Lemma execAll_markers (s : jsstring) : forall ls pos skip,
  Forall (fun c => isLineTerminator c = false) (take skip s) ->
  (skip <> 0%nat -> ls = false) ->
  index <$> execAll ls pos skip s
  = (fun i => (pos + i)%nat) <$> List.filter (markerFrom ls s) (seq 0 (length s)).
Proof.
  induction s as [|c s IH]; intros ls pos skip Hskip Hls; [done|].
  assert (Hseq : forall ls',
    List.filter (markerFrom ls' (c :: s)) (seq 0 (length (c :: s)))
    = (if markerFrom ls' (c :: s) 0 then [0%nat] else [])
      ++ (S <$> List.filter (markerFrom (isLineTerminator c) s) (seq 0 (length s)))).
  { intros ls'. cbn [length seq List.filter].
    assert (Htail : List.filter (markerFrom ls' (c :: s)) (seq 1 (length s))
                    = S <$> List.filter (markerFrom (isLineTerminator c) s)
                              (seq 0 (length s))).
    { rewrite <- seq_shift. generalize (seq 0 (length s)). intros l.
      induction l as [|i l IHl]; [done|]. cbn [map List.filter].
      rewrite markerFrom_cons. destruct (markerFrom (isLineTerminator c) s i);
        cbn [fmap list_fmap]; by rewrite IHl. }
    rewrite Htail. by destruct (markerFrom ls' (c :: s) 0). }
  assert (Hshift : forall l : list nat,
    (fun i => (pos + i)%nat) <$> (S <$> l) = (fun i => (S pos + i)%nat) <$> l).
  { intros l. rewrite <- list_fmap_compose. apply list_fmap_ext.
    intros _ i _. cbn. lia. }
  rewrite Hseq, fmap_app, Hshift. cbn [execAll].
  destruct skip as [|k].
  - destruct ls.
    + destruct (reDateSection (c :: s)) as [n|] eqn:Hre.
      * assert (H0 : markerFrom true (c :: s) 0 = true).
        { unfold markerFrom. cbn [drop]. rewrite Hre.
          by rewrite bool_decide_eq_true_2. }
        rewrite H0. cbn [fmap list_fmap app index]. f_equal; [lia|].
        destruct (reDateSection_heading _ _ Hre) as [[Hpos Hlen] Hall].
        destruct n as [|n]; [lia|]. cbn [take] in Hall.
        apply Forall_cons in Hall as [Hc Hall].
        rewrite Hc. replace (S n - 1)%nat with n by lia.
        rewrite (IH false (S pos) n); [done|done|done].
      * assert (H0 : markerFrom true (c :: s) 0 = false).
        { unfold markerFrom. cbn [drop]. rewrite Hre.
          by rewrite bool_decide_eq_false_2 by (intros [? ?]; discriminate). }
        rewrite H0. cbn [app fmap list_fmap]. by apply IH.
    + cbn [markerFrom andb app fmap list_fmap]. by apply IH.
  - rewrite (Hls ltac:(done)). cbn [markerFrom andb app fmap list_fmap].
    cbn [take] in Hskip. apply Forall_cons in Hskip as [Hc Hskip].
    rewrite Hc. by apply IH.
Qed.

Lemma extractSections_slices (content : jsstring) (ms : list Match) :
  StronglySorted (fun a b => (index a < index b)%nat) ms ->
  Forall (fun x => (index x < length content)%nat) ms ->
  extractSections content ms = slices content (index <$> ms).
Proof.
  induction ms as [|m ms IH]; intros Hs Hb; [done|].
  apply StronglySorted_inv in Hs as [Hs Hm].
  apply Forall_cons in Hb as [Hlt Hb].
  cbn [extractSections fmap list_fmap slices]. rewrite IH by done. f_equal.
  destruct ms as [|next ms]; cbn [fmap list_fmap].
  - rewrite substring_ordered by lia. apply take_ge. rewrite length_drop. lia.
  - apply Forall_cons in Hm as [Hnext _]. apply Forall_cons in Hb as [Hnb _].
    apply substring_ordered. lia.
Qed.

(** The sections the splitter extracts are the date sections of the
    document. *)
Lemma sectionsOf_marked (content : jsstring) :
  sectionsOf content = markedSections content.
Proof.
  unfold sectionsOf, markedSections, markerPositions.
  rewrite extractSections_slices.
  - f_equal. rewrite (execAll_markers content true 0 0); [|constructor|done].
    unfold markerAt.
    etransitivity; [|apply list_fmap_id]. apply list_fmap_ext. by intros _ i _.
  - apply execAll_sorted.
  - apply Forall_forall. intros m Hm. apply execAll_bounds in Hm. lia.
Qed.

End SplitFacts.

(** * C10: what the chunks cover *)

(** C10: when the document has a date-section marker, the chunks put
    together are the document from its first marker to its end, so nothing
    that precedes that marker (the header block) is in any chunk; when it
    has none, the only chunk is the whole document, header included.  The
    first marker is the leftmost position that starts a line and begins a
    heading ending its line. *)
Theorem chunks_start_at_first_marker (content : jsstring) (maxChunkSize : Z) :
  (forall i, RagOptimizer.markerAt content i = false)
    /\ RagOptimizer.splitIntoChunks content maxChunkSize = [content]
  \/ exists first,
      RagOptimizer.markerAt content first = true
      /\ (forall i, (i < first)%nat -> RagOptimizer.markerAt content i = false)
      /\ concat (RagOptimizer.splitIntoChunks content maxChunkSize)
         = drop first content.
Proof.
  pose proof (SplitFacts.execAll_first content true 0) as Hfirst.
  pose proof (SplitFacts.sections_spec content) as Hsec.
  unfold RagOptimizer.splitIntoChunks.
  destruct (RagOptimizer.execAll true 0 0 content) as [|m ms] eqn:Hm.
  - left. split; [exact Hfirst|]. by rewrite Hsec.
  - right. destruct Hfirst as (j & Hj & Hmark & Hmin).
    destruct Hsec as (Hcat & Hlen & Hne). cbn in Hj. subst j.
    exists (RagOptimizer.index m). split; [done|]. split; [done|].
    destruct (SplitFacts.combineSections_spec maxChunkSize _ Hne)
      as (groups & Hchunks & Hgroups & _).
    rewrite Hchunks.
    assert (Hcc : concat (@concat N <$> groups) = drop (RagOptimizer.index m) content).
    { rewrite <- Hcat, <- Hgroups. clear.
      induction groups as [|g groups IH]; [done|].
      cbn. rewrite concat_app. by f_equal. }
    destruct (@concat N <$> groups) as [|chunk chunks] eqn:Hg; [|done].
    cbn in Hcc. symmetry in Hcc. apply (f_equal length) in Hcc.
    rewrite length_drop in Hcc. cbn in Hcc. lia.
Qed.

(** * C6: chunks are made of whole date sections *)

(** C6, as amended: the date sections of a document are the texts from each
    position where a date heading begins a line to the next such position
    (the last one to the end), and they are what the splitter extracts.
    When there is none, the splitter returns the whole document as its only
    chunk, whatever its length.  Otherwise the sections fall into
    consecutive non-empty groups and the chunks are exactly the texts of
    these groups, so that no section is cut or shared between two chunks;
    and every chunk is within the budget unless it is one section that is
    longer than the budget by itself. *)
Theorem chunks_are_whole_sections (content : jsstring) (maxChunkSize : Z) :
  let sections := RagOptimizer.markedSections content in
  RagOptimizer.sectionsOf content = sections
  /\ ((sections = []
       /\ (forall i, RagOptimizer.markerAt content i = false)
       /\ RagOptimizer.splitIntoChunks content maxChunkSize = [content])
      \/ (sections <> []
          /\ RagOptimizer.ChunkBound content maxChunkSize
          /\ exists groups : list (list jsstring),
               concat groups = sections
               /\ RagOptimizer.splitIntoChunks content maxChunkSize
                  = @concat N <$> groups
               /\ Forall (RagOptimizer.fits maxChunkSize) groups)).
Proof.
  intros sections. subst sections.
  split; [apply SplitFacts.sectionsOf_marked|].
  pose proof (SplitFacts.execAll_first content true 0) as Hfirst.
  pose proof (SplitFacts.sections_spec content) as Hsec.
  unfold RagOptimizer.ChunkBound.
  rewrite <- (SplitFacts.sectionsOf_marked content).
  unfold RagOptimizer.sectionsOf, RagOptimizer.splitIntoChunks.
  destruct (RagOptimizer.execAll true 0 0 content) as [|m ms] eqn:Hm.
  - left. split; [done|]. split; [exact Hfirst|]. by rewrite Hsec.
  - right. destruct Hsec as (Hcat & Hlen & Hne).
    destruct (SplitFacts.combineSections_spec maxChunkSize _ Hne)
      as (groups & Hchunks & Hgroups & Hfit).
    rewrite Hchunks.
    assert (Hnonempty : @concat N <$> groups <> []).
    { destruct groups; [cbn in Hgroups; discriminate|done]. }
    destruct (@concat N <$> groups) as [|c cs] eqn:Hcs; [done|].
    cbn match. rewrite <- Hcs. clear Hnonempty.
    split; [done|]. split; [|by exists groups].
    intros chunk Hchunk. apply list_elem_of_fmap in Hchunk as (g' & -> & Hg').
    pose proof (proj1 (Forall_forall _ _) Hfit g' Hg') as [_ [Hle|(sec & -> & Hbig)]].
    + by left.
    + right. cbn [concat]. rewrite app_nil_r. split; [|done].
      rewrite <- Hgroups. apply list_elem_of_In, in_concat.
      exists [sec]. split; [by apply list_elem_of_In|by left].
Qed.

(** C6 as stated fails on a document without date headings: its only chunk
    is the whole text, longer than the budget and no date section. *)
Lemma chunk_without_marker_exceeds_budget :
  ~ RagOptimizer.ChunkBound (js "plain notes, no date heading") 10.
Proof.
  intros H. destruct (H (js "plain notes, no date heading")) as [Hle|[Hin _]].
  - vm_compute. left.
  - vm_compute in Hle. by apply Hle.
  - vm_compute in Hin. by apply elem_of_nil in Hin.
Qed.

(** * Grouping by date *)

Module GroupFacts.
Import RagGenerator.

Lemma getProp_snoc {V : Type} k (g : list (jsstring * V)) k0 v :
  getProp k (g ++ [(k0, v)]) =
    match getProp k g with
    | Some x => Some x
    | None => if bool_decide (k0 = k) then Some v else None
    end.
Proof.
  induction g as [|[k1 v1] g IH]; cbn; [done|].
  by destruct (str_eqb k1 k).
Qed.

Lemma getProp_pushAt {V : Type} k k0 (x : V) (g : list (jsstring * list V)) :
  getProp k (pushAt k0 x g) =
    if bool_decide (k = k0) then (fun v => v ++ [x]) <$> getProp k g
    else getProp k g.
Proof.
  induction g as [|[k1 v1] g IH]; cbn; [by case_bool_decide|].
  destruct (str_eqb k1 k0) eqn:E10; cbn;
    destruct (str_eqb k1 k) eqn:E1; cbn;
    unfold str_eqb in E10, E1;
    try apply bool_decide_eq_true in E10; try apply bool_decide_eq_true in E1;
    try apply bool_decide_eq_false in E10; try apply bool_decide_eq_false in E1;
    subst.
  - by rewrite bool_decide_eq_true_2.
  - by rewrite bool_decide_eq_false_2 by congruence.
  - by rewrite bool_decide_eq_false_2 by congruence.
  - exact IH.
Qed.

Lemma fst_pushAt {V : Type} k0 (x : V) (g : list (jsstring * list V)) :
  (pushAt k0 x g).*1 = g.*1.
Proof.
  induction g as [|[k1 v1] g IH]; cbn; [done|].
  destruct (str_eqb k1 k0); cbn; congruence.
Qed.

Lemma getProp_None {V : Type} k (g : list (jsstring * V)) :
  getProp k g = None <-> k ∉ g.*1.
Proof.
  induction g as [|[k1 v1] g IH]; cbn.
  - split; [intros _; apply not_elem_of_nil|done].
  - destruct (str_eqb k1 k) eqn:E; unfold str_eqb in E.
    + apply bool_decide_eq_true in E. subst.
      split; [done|]. intros H. exfalso. apply H. left.
    + apply bool_decide_eq_false in E.
      rewrite IH, not_elem_of_cons. split; [intros ?; split; congruence|tauto].
Qed.

Section Grouping.
Context (h : Host).

Lemma groupInv_nil : groupInv h [] ([], []).
Proof. repeat split; cbn; try done. constructor. Qed.

Lemma groupStep_inv seen st msg :
  groupInv h seen st -> groupInv h (seen ++ [msg]) (groupStep h st msg).
Proof.
  destruct st as [grouped dateObjects].
  intros (Hkeys & Hnd & Hg & Hd). cbn in Hkeys, Hnd, Hg, Hd.
  unfold groupStep. fold (dateOf h msg). fold (dateStrOf h msg).
  set (k0 := dateStrOf h msg).
  assert (Hfilter : forall k,
    filter (fun m => dateStrOf h m = k) (seen ++ [msg])
    = filter (fun m => dateStrOf h m = k) seen
        ++ (if bool_decide (k = k0) then [msg] else [])).
  { intros k. rewrite filter_app. f_equal.
    case_bool_decide as Hk.
    - rewrite filter_cons_True by (subst k; done). done.
    - rewrite filter_cons_False by (intros Hm; apply Hk; symmetry; exact Hm). done. }
  destruct (getProp k0 grouped) as [v0|] eqn:Hk0.
  - (* the date is known *)
    repeat split; cbn.
    + by rewrite fst_pushAt.
    + by rewrite fst_pushAt.
    + intros k. rewrite getProp_pushAt, Hfilter, Hg.
      case_bool_decide as Hk; [|by rewrite app_nil_r].
      subst k. rewrite Hg in Hk0.
      destruct (filter _ seen) as [|m0 l0]; [done|]. done.
    + intros k. rewrite Hfilter, Hd.
      case_bool_decide as Hk; [|by rewrite app_nil_r].
      subst k. rewrite Hg in Hk0.
      destruct (filter _ seen) as [|m0 l0]; [done|]. done.
  - (* a new date *)
    assert (Hfresh : k0 ∉ grouped.*1) by (by apply getProp_None).
    repeat split; cbn.
    + rewrite fst_pushAt, !fmap_app. cbn. by rewrite Hkeys.
    + rewrite fst_pushAt, fmap_app. cbn.
      apply NoDup_app. split; [done|]. split; [|apply NoDup_singleton].
      intros x Hx Hx'. apply list_elem_of_singleton in Hx'. by subst x.
    + intros k. rewrite getProp_pushAt, getProp_snoc, Hfilter, Hg.
      case_bool_decide as Hk.
      * subst k. rewrite Hg in Hk0.
        destruct (filter _ seen) as [|m0 l0]; [|done].
        cbn. by rewrite bool_decide_eq_true_2.
      * rewrite app_nil_r.
        destruct (filter _ seen) as [|m0 l0]; [|done].
        rewrite bool_decide_eq_false_2 by congruence. done.
    + intros k. rewrite getProp_snoc, Hfilter, Hd.
      rewrite Hg in Hk0.
      destruct (decide (k = k0)) as [->|Hk].
      * rewrite !bool_decide_eq_true_2 by done.
        destruct (filter _ seen) as [|m0 l0]; [|done]. done.
      * rewrite (bool_decide_eq_false_2 (k0 = k)) by congruence.
        rewrite (bool_decide_eq_false_2 (k = k0)) by congruence.
        rewrite app_nil_r.
        by destruct (head (filter _ seen)).
Qed.

Lemma groupMessages_inv messages : groupInv h messages (groupMessages h messages).
Proof.
  unfold groupMessages.
  assert (Hgen : forall ms seen st,
    groupInv h seen st -> groupInv h (seen ++ ms) (fold_left (groupStep h) ms st)).
  { induction ms as [|m ms IH]; intros seen st Hinv; cbn.
    - by rewrite app_nil_r.
    - replace (seen ++ m :: ms) with ((seen ++ [m]) ++ ms)
        by (by rewrite <- app_assoc).
      apply IH. by apply groupStep_inv. }
  apply (Hgen messages [] _ groupInv_nil).
Qed.

End Grouping.

(** The sort. *)
Lemma insertSorted_perm {A : Type} (cmp : A -> A -> Z) x l :
  insertSorted cmp x l ≡ₚ x :: l.
Proof.
  induction l as [|y l IH]; cbn; [done|].
  destruct (cmp x y <=? 0)%Z; [done|].
  rewrite IH. apply Permutation_swap.
Qed.

Lemma sortWith_perm {A : Type} (cmp : A -> A -> Z) l : sortWith cmp l ≡ₚ l.
Proof.
  induction l as [|x l IH]; cbn; [done|].
  by rewrite insertSorted_perm, IH.
Qed.



(** The sections, without any assumption on the dates: one per date string
    met, each holding the messages that render to it, in input order. *)
Lemma dateSections_shape (h : Host) (messages : list Message) :
  exists keys : list jsstring,
    NoDup keys
    /\ (forall m, m ∈ messages -> dateStrOf h m ∈ keys)
    /\ dateSections h messages
       = (fun k => (k, filter (fun m => dateStrOf h m = k) messages)) <$> keys.
Proof.
  unfold dateSections.
  pose proof (groupMessages_inv h messages) as Hinv.
  destruct (groupMessages h messages) as [grouped dateObjects].
  destruct Hinv as (Hkeys & Hnd & Hg & Hd). cbn in Hkeys, Hnd, Hg, Hd.
  assert (Hperm : sortedDates grouped dateObjects ≡ₚ grouped.*1)
    by apply sortWith_perm.
  exists (sortedDates grouped dateObjects). split; [by rewrite Hperm|]. split.
  - intros m Hm. rewrite Hperm.
    destruct (decide (dateStrOf h m ∈ grouped.*1)) as [|Hno]; [done|].
    apply getProp_None in Hno. rewrite Hg in Hno.
    assert (Hin : m ∈ filter (fun m' => dateStrOf h m' = dateStrOf h m) messages)
      by (by apply list_elem_of_filter).
    destruct (filter _ messages); [|done]. by apply elem_of_nil in Hin.
  - apply Forall_fmap_ext, Forall_forall. intros k Hk. rewrite Hperm in Hk.
    f_equal. rewrite Hg.
    destruct (filter (fun m => dateStrOf h m = k) messages) eqn:Hf; [|done].
    exfalso. apply (proj1 (getProp_None k grouped)); [|done].
    by rewrite Hg, Hf.
Qed.

Lemma bind_split {A B : Type} (f g : A -> list B) (l : list A) :
  l ≫= (fun x => f x ++ g x) ≡ₚ (l ≫= f) ++ (l ≫= g).
Proof.
  induction l as [|x l IH]; [done|].
  rewrite !bind_cons, IH, <- !app_assoc. f_equiv.
  rewrite !app_assoc. f_equiv. apply Permutation_app_comm.
Qed.

Lemma bind_pick (keys : list jsstring) (k0 : jsstring) {B : Type} (b : B) :
  NoDup keys -> k0 ∈ keys ->
  keys ≫= (fun k => if decide (k0 = k) then [b] else []) = [b].
Proof.
  induction 1 as [|k keys Hk Hnd IH]; intros Hin; [by apply elem_of_nil in Hin|].
  rewrite bind_cons. destruct (decide (k0 = k)) as [->|Hne].
  - cbn. f_equal. clear IH Hin. induction keys as [|k' keys IH]; [done|].
    rewrite bind_cons. apply not_elem_of_cons in Hk as [Hk Hk'].
    apply NoDup_cons in Hnd as [_ Hnd].
    destruct (decide (k = k')); [done|]. by apply IH.
  - apply elem_of_cons in Hin as [?|Hin]; [done|]. by rewrite IH.
Qed.

(** Splitting a list by the values of a key and putting the classes back
    together loses and repeats nothing. *)
Lemma bind_filter_partition {A : Type} (f : A -> jsstring) (keys : list jsstring)
    (l : list A) :
  NoDup keys -> (forall x, x ∈ l -> f x ∈ keys) ->
  keys ≫= (fun k => filter (fun x => f x = k) l) ≡ₚ l.
Proof.
  intros Hnd. induction l as [|x l IH]; intros Hall.
  - clear. induction keys as [|k keys IH]; [done|]. by rewrite bind_cons, IH.
  -     transitivity ((keys ≫= (fun k => if decide (f x = k) then [x] else []))
                    ++ (keys ≫= (fun k => filter (fun y => f y = k) l))).
    + rewrite <- bind_split. apply reflexive_eq. apply list_bind_ext; [|done].
      intros k. rewrite filter_cons. by destruct (decide (f x = k)).
    + rewrite bind_pick; [|done|apply Hall; left].
      cbn. f_equiv. apply IH. intros y Hy. apply Hall. by right.
Qed.

(** Every message of a batch is in exactly one of its sections. *)
Lemma dateSections_partition (h : Host) (messages : list Message) :
  dateSections h messages ≫= snd ≡ₚ messages.
Proof.
  destruct (dateSections_shape h messages) as (keys & Hnd & Hall & ->).
  transitivity (keys ≫= (fun k => filter (fun m => dateStrOf h m = k) messages));
    [|by apply bind_filter_partition].
  apply reflexive_eq. clear. induction keys as [|k keys IH]; [done|].
  cbn. by rewrite IH.
Qed.

End GroupFacts.

(** * C7: the order of the date sections *)


(** * Aggregation *)

Module AggregateFacts.
Import RagOptimizer.

Lemma fold_push {A B : Type} (f : A -> list B) (l : list A) (init : list B) :
  fold_left (fun all x => all ++ f x) l init = init ++ (l ≫= f).
Proof.
  revert init. induction l as [|x l IH]; intros init; cbn.
  - by rewrite app_nil_r.
  - by rewrite IH, app_assoc.
Qed.

Lemma fold_nested {A B C : Type} (step : C -> B -> C) (f : A -> list B)
    (l : list A) (init : C) :
  fold_left (fun acc x => fold_left step (f x) acc) l init
    = fold_left step (l ≫= f) init.
Proof.
  revert init. induction l as [|x l IH]; intros init; cbn; [done|].
  by rewrite IH, fold_left_app.
Qed.

Lemma precedes_bind {A B : Type} (f : A -> list B) before a between b after x y :
  x ∈ f a -> y ∈ f b ->
  precedes x y ((before ++ a :: between ++ b :: after) ≫= f).
Proof.
  intros Hx Hy.
  apply list_elem_of_split in Hx as (a1 & a2 & Ha).
  apply list_elem_of_split in Hy as (b1 & b2 & Hb).
  exists ((before ≫= f) ++ a1), (a2 ++ (between ≫= f) ++ b1), (b2 ++ (after ≫= f)).
  rewrite bind_app, bind_cons, bind_app, bind_cons, Ha, Hb.
  by rewrite <- !app_assoc.
Qed.

Lemma setAdd_fold l : forall init,
  fold_left setAdd l init
    = init ++ filter (fun y => y ∉ init) (firstOccurrences l).
Proof.
  induction l as [|x l IH]; intros init; cbn [fold_left firstOccurrences].
  - by rewrite app_nil_r.
  - rewrite IH. unfold setAdd. case_bool_decide as Hx.
    + rewrite filter_cons_False by (intros H; by apply H).
      f_equal. rewrite list_filter_filter. apply list_filter_iff.
      intros y. split; [|tauto]. intros Hy. split; [done|]. congruence.
    + rewrite filter_cons_True by done.
      rewrite <- app_assoc. cbn. do 2 f_equal.
      rewrite list_filter_filter. apply list_filter_iff.
      intros y. rewrite not_elem_of_app, list_elem_of_singleton. tauto.
Qed.

Lemma allTopics_spec chunks :
  allTopics chunks = firstOccurrences (chunks ≫= topicsOf).
Proof.
  unfold allTopics.
  rewrite (fold_nested setAdd topicsOf), setAdd_fold. cbn.
  induction (firstOccurrences _) as [|y l IH]; [done|].
  rewrite filter_cons_True by apply not_elem_of_nil. by f_equal.
Qed.

Lemma elem_of_firstOccurrences l x : x ∈ firstOccurrences l <-> x ∈ l.
Proof.
  induction l as [|y l IH]; cbn; [done|].
  rewrite !elem_of_cons, list_elem_of_filter, IH.
  destruct (decide (x = y)); tauto.
Qed.

Lemma NoDup_firstOccurrences l : NoDup (firstOccurrences l).
Proof.
  induction l as [|y l IH]; cbn; [constructor|].
  constructor; [|by apply NoDup_filter].
  rewrite list_elem_of_filter. tauto.
Qed.

Lemma firstOccurrences_app p q :
  firstOccurrences (p ++ q)
    = firstOccurrences p ++ filter (fun y => y ∉ p) (firstOccurrences q).
Proof.
  induction p as [|x p IH]; cbn.
  - induction (firstOccurrences q) as [|y l IHl]; [done|].
    rewrite filter_cons_True by apply not_elem_of_nil. by f_equal.
  - f_equal. rewrite IH, filter_app. f_equal.
    rewrite list_filter_filter. apply list_filter_iff.
    intros y. rewrite not_elem_of_cons. tauto.
Qed.

Lemma precedes_firstOccurrences p q x y :
  x ∈ p -> y ∈ q -> y ∉ p -> precedes x y (firstOccurrences (p ++ q)).
Proof.
  intros Hx Hy Hnot. rewrite firstOccurrences_app.
  apply elem_of_firstOccurrences, list_elem_of_split in Hx as (s1 & s2 & Hs).
  assert (Hy' : y ∈ filter (fun y => y ∉ p) (firstOccurrences q)).
  { apply list_elem_of_filter. split; [done|]. by apply elem_of_firstOccurrences. }
  apply list_elem_of_split in Hy' as (e1 & e2 & He).
  exists s1, (s2 ++ e1), e2. rewrite Hs, He. by rewrite <- !app_assoc.
Qed.

(** The chunk loop hands each chunk, with its index, to the processor and
    keeps the results in that order. *)
Lemma processChunks_in_order {R : Type} (process : nat -> nat -> jsstring -> Outcome R)
    total chunks : forall i results,
  processChunks process total i chunks = Return results ->
  length results = length chunks
  /\ forall k chunk, chunks !! k = Some chunk ->
       exists r, results !! k = Some r /\ process (i + k)%nat total chunk = Return r.
Proof.
  induction chunks as [|c chunks IH]; intros i results; cbn.
  - intros [= <-]. split; [done|]. intros k chunk Hk. done.
  - destruct (process i total c) as [r|e] eqn:Hp; [|done].
    destruct (processChunks process total (S i) chunks) as [rs|e] eqn:Hrest; [|done].
    intros [= <-]. destruct (IH (S i) rs Hrest) as [Hlen Hall].
    split; [cbn; lia|]. intros [|k] chunk Hk; cbn in Hk.
    + injection Hk as <-. exists r. by rewrite Nat.add_0_r.
    + destruct (Hall k chunk Hk) as (r' & Hr' & Hp'). exists r'.
      split; [done|]. by replace (i + S k)%nat with (S i + k)%nat by lia.
Qed.

Lemma processChunks_succeeds {R : Type} (process : nat -> nat -> jsstring -> Outcome R)
    total chunks : forall i,
  (forall k chunk, chunks !! k = Some chunk ->
     exists r, process (i + k)%nat total chunk = Return r) ->
  exists results, processChunks process total i chunks = Return results.
Proof.
  induction chunks as [|c chunks IH]; intros i Hok; cbn; [by eexists|].
  destruct (Hok 0%nat c eq_refl) as [r Hr]. rewrite Nat.add_0_r in Hr. rewrite Hr.
  destruct (IH (S i)) as [rs Hrs].
  { intros k chunk Hk. destruct (Hok (S k) chunk Hk) as [r' Hr'].
    exists r'. by replace (S i + k)%nat with (i + S k)%nat by lia. }
  rewrite Hrs. by eexists.
Qed.

End AggregateFacts.

(** * C9: the aggregate follows the order of the chunks *)

(** C9: the aggregate of a sequence of processed chunks is made in the order
    of the sequence.  Decisions, action items, context summaries and
    technical details are the concatenation of what the chunks hold; topics
    are that concatenation with each topic kept at its first occurrence.
    Hence whenever chunk [a] comes before chunk [b], every entry of [a]
    precedes every entry of [b] in the aggregate; for topics, every topic of
    [a] precedes every topic that [b] is the first chunk to mention. *)
Theorem aggregate_follows_chunk_order (processedChunks : list RagOptimizer.ProcessedChunk) :
  RagOptimizer.allTopics processedChunks
    = RagOptimizer.firstOccurrences (processedChunks ≫= RagOptimizer.topicsOf)
  /\ RagOptimizer.allDecisions processedChunks
     = processedChunks ≫= RagOptimizer.decisionsOf
  /\ RagOptimizer.allActionItems processedChunks
     = processedChunks ≫= RagOptimizer.actionItemsOf
  /\ RagOptimizer.allContextSummaries processedChunks
     = processedChunks ≫= RagOptimizer.contextSummariesOf
  /\ RagOptimizer.allTechnicalDetails processedChunks
     = processedChunks ≫= RagOptimizer.technicalDetailsOf
  /\ forall before a between b after,
       processedChunks = before ++ a :: between ++ b :: after ->
       (forall x y, x ∈ RagOptimizer.topicsOf a -> y ∈ RagOptimizer.topicsOf b ->
          y ∉ (before ++ a :: between) ≫= RagOptimizer.topicsOf ->
          RagOptimizer.precedes x y (RagOptimizer.allTopics processedChunks))
       /\ (forall x y, x ∈ RagOptimizer.decisionsOf a -> y ∈ RagOptimizer.decisionsOf b ->
             RagOptimizer.precedes x y (RagOptimizer.allDecisions processedChunks))
       /\ (forall x y, x ∈ RagOptimizer.actionItemsOf a ->
             y ∈ RagOptimizer.actionItemsOf b ->
             RagOptimizer.precedes x y (RagOptimizer.allActionItems processedChunks))
       /\ (forall x y, x ∈ RagOptimizer.contextSummariesOf a ->
             y ∈ RagOptimizer.contextSummariesOf b ->
             RagOptimizer.precedes x y (RagOptimizer.allContextSummaries processedChunks))
       /\ (forall x y, x ∈ RagOptimizer.technicalDetailsOf a ->
             y ∈ RagOptimizer.technicalDetailsOf b ->
             RagOptimizer.precedes x y (RagOptimizer.allTechnicalDetails processedChunks)).
Proof.
  assert (Hd : RagOptimizer.allDecisions processedChunks
               = processedChunks ≫= RagOptimizer.decisionsOf)
    by apply (AggregateFacts.fold_push RagOptimizer.decisionsOf).
  assert (Ha : RagOptimizer.allActionItems processedChunks
               = processedChunks ≫= RagOptimizer.actionItemsOf)
    by apply (AggregateFacts.fold_push RagOptimizer.actionItemsOf).
  rewrite AggregateFacts.allTopics_spec, Hd, Ha.
  unfold RagOptimizer.allContextSummaries, RagOptimizer.allTechnicalDetails.
  repeat (split; [done|]).
  intros before a between b after ->.
  repeat split; intros x y Hx Hy; try by apply AggregateFacts.precedes_bind.
  intros Hfirst.
  replace (before ++ a :: between ++ b :: after)
    with ((before ++ a :: between) ++ b :: after)
    by (by rewrite <- app_assoc).
  rewrite bind_app. apply AggregateFacts.precedes_firstOccurrences; [| |done].
  - rewrite bind_app, bind_cons. set_solver.
  - rewrite bind_cons. set_solver.
Qed.

(** Two days whose date strings sort the other way as text: the section of
    12/31/2024 still comes first. *)
Lemma sections_not_in_text_order :
  (RagGenerator.dateSections SampleHost.host
     [SampleHost.message "1" "Ana" "2024-12-31T09:00:00.000Z" "old year";
      SampleHost.message "2" "Bo" "2025-01-01T10:00:00.000Z" "new year";
      SampleHost.message "3" "Ana" "2025-01-01T11:00:00.000Z" "again"]).*1
  = [js "12/31/2024"; js "1/1/2025"].
Proof. vm_compute. reflexivity. Qed.


(** * C8: the reply parser *)

Module ParseFacts.
Import RagOptimizer Regex.

(** A reply without any fence is handed to [JSON.parse] as it is. *)
Lemma jsonString_bare response : noFence response -> jsonString response = response.
Proof.
  intros Hno. unfold jsonString.
  rewrite (RegexFacts.search_none (reFenced (fence ++ js "json"))).
  - rewrite (RegexFacts.search_none (reFenced fence)); [done|].
    intros i. unfold reFenced. by rewrite Hno.
  - intros i. unfold reFenced. rewrite RegexFacts.stripPrefix_app, Hno. done.
Qed.

(** The lazy group stops at the first closing fence: when no fence begins
    inside [payload] and [payload] ends on a visible character, the group is
    [payload]. *)
Lemma lazyToFence_payload (payload w2 post : jsstring) :
  (forall k, (k < length payload)%nat ->
     stripPrefix fence (drop k (payload ++ w2 ++ fence ++ post)) = None) ->
  Forall (fun c => isWhiteSpace c = true) w2 ->
  match last payload with Some z => isWhiteSpace z = false | None => True end ->
  lazyToFence (payload ++ w2 ++ fence ++ post)
    = Some (payload, (length payload + length w2 + 3)%nat).
Proof.
  induction payload as [|c p IH]; intros Hno Hw2 Hlast.
  - cbn [app length]. destruct w2 as [|x w2'] eqn:Ew.
    + by cbn.
    + rewrite <- Ew in *.
      assert (Hspan : span isWhiteSpace (w2 ++ fence ++ post) = (w2, fence ++ post))
        by (by apply RegexFacts.span_app).
      rewrite Ew in *. cbn [app lazyToFence] in *. rewrite Hspan.
      rewrite RegexFacts.stripPrefix_self. done.
  - assert (IHp : lazyToFence (p ++ w2 ++ fence ++ post)
                  = Some (p, (length p + length w2 + 3)%nat)).
    { apply IH; [|done|].
      - intros k Hk. apply (Hno (S k)). cbn. lia.
      - destruct p as [|d p']; [done|]. exact Hlast. }
    cbn [app lazyToFence]. rewrite IHp.
    (* the text at this position is not white space up to a fence *)
    pose proof (RegexFacts.span_spec isWhiteSpace (c :: p ++ w2 ++ fence ++ post))
      as (Hsplit & Hws & Hhead).
    destruct (span isWhiteSpace (c :: p ++ w2 ++ fence ++ post)) as [w t] eqn:Hsp.
    cbn [fst snd] in *.
    assert (Hshort : (length w < length (c :: p))%nat).
    { destruct (decide (length w < length (c :: p))%nat) as [|Hge]; [done|].
      exfalso.
      assert (Hz : exists z, last (c :: p) = Some z) by (by apply last_is_Some).
      destruct Hz as [z Hz]. rewrite Hz in Hlast.
      apply last_Some in Hz as [front Hfront].
      assert (Hin : z ∈ w).
      { apply list_elem_of_lookup. exists (length front).
        assert (Hlook : (c :: p ++ w2 ++ fence ++ post) !! length front = Some z).
        { change (c :: p ++ w2 ++ fence ++ post)
            with ((c :: p) ++ w2 ++ fence ++ post).
          rewrite Hfront, <- app_assoc. by apply list_lookup_middle. }
        rewrite Hsplit in Hlook. rewrite lookup_app_l in Hlook; [done|].
        apply (f_equal length) in Hfront. rewrite length_app in Hfront.
        cbn in Hfront. cbn in Hge. lia. }
      eapply Forall_forall in Hws; [|exact Hin]. congruence. }
    assert (Ht : t = drop (length w) (c :: p ++ w2 ++ fence ++ post)).
    { rewrite Hsplit at 1. by rewrite drop_app_length. }
    change (c :: p ++ w2 ++ fence ++ post)
      with ((c :: p) ++ w2 ++ fence ++ post) in Ht.
    rewrite Ht, (Hno (length w) Hshort). cbn. do 2 f_equal.
Qed.

(** A reply that wraps its payload in a [json] block, with no fence before
    the block and none beginning inside the payload: the payload is what
    [JSON.parse] receives. *)
Lemma jsonString_fenced (pre w1 payload w2 post : jsstring) :
  (forall i, (i < length pre)%nat ->
     stripPrefix fence
       (drop i (pre ++ (fence ++ js "json") ++ w1 ++ payload ++ w2 ++ fence ++ post))
     = None) ->
  (forall k, (k < length payload)%nat ->
     stripPrefix fence (drop k (payload ++ w2 ++ fence ++ post)) = None) ->
  Forall (fun c => isWhiteSpace c = true) w1 ->
  Forall (fun c => isWhiteSpace c = true) w2 ->
  match payload with c :: _ => isWhiteSpace c = false | [] => False end ->
  match last payload with Some z => isWhiteSpace z = false | None => True end ->
  jsonString (pre ++ (fence ++ js "json") ++ w1 ++ payload ++ w2 ++ fence ++ post)
    = payload.
Proof.
  intros Hpre Hpay Hw1 Hw2 Hhead Hlast. unfold jsonString.
  rewrite (RegexFacts.search_at (reFenced (fence ++ js "json")) (length pre) _
             (length (fence ++ js "json") + length w1
              + (length payload + length w2 + 3))%nat payload).
  - done.
  - intros i Hi. unfold reFenced.
    rewrite RegexFacts.stripPrefix_app, (Hpre i Hi). done.
  - rewrite drop_app_length. unfold reFenced.
    rewrite RegexFacts.stripPrefix_self.
    rewrite (RegexFacts.span_app isWhiteSpace w1); [|done|].
    + by rewrite lazyToFence_payload.
    + destruct payload; [done|]. exact Hhead.
  - rewrite length_app. lia.
Qed.

(** The parser fails exactly when [JSON.parse] rejects the text it is
    handed, and then with the parse error. *)
Lemma parse_error_iff h response i :
  JSON_parse h (jsonString response) = None
  <-> parseClaudeResponse h response i
      = Throw (Error (js "Failed to parse Claude response")).
Proof.
  unfold parseClaudeResponse. by destruct (JSON_parse h (jsonString response)).
Qed.

End ParseFacts.

(** Scenario D and its fenced variant on the sample host. *)
Lemma parse_bare_and_fenced :
  RagOptimizer.parseClaudeResponse SampleHost.host
    (SampleHost.json "{'topics': ['deploy'], 'decisions': []}") 2
  = Return (JObject [(js "topics", JArray [JString (js "deploy")]);
                     (js "decisions", JArray []);
                     (js "chunkIndex", JNumber (js "2"))])
  /\ RagOptimizer.parseClaudeResponse SampleHost.host
       (SampleHost.json "Here is the analysis:
```json
{'topics': ['deploy'], 'decisions': []}
```
") 2
     = Return (JObject [(js "topics", JArray [JString (js "deploy")]);
                        (js "decisions", JArray []);
                        (js "chunkIndex", JNumber (js "2"))]).
Proof. split; vm_compute; reflexivity. Qed.

(** C8, the code at two failing inputs.  The first reply is a bare JSON
    object, valid as it stands, one of whose strings quotes a command
    between fences; the second wraps the same object in a [json] block.  In
    both the expression stops at the first closing fence it meets, inside
    the string, so [JSON.parse] receives a fragment and the parser throws
    although the reply carries a valid payload. *)
Theorem fenced_text_inside_payload_is_rejected :
  let payload := SampleHost.json
    "{'topics':['cli'],'technicalDetails':[{'type':'command','content':'```npm start```','context':'run'}]}" in
  let fenced := js "```json" ++ newline ++ payload ++ newline ++ js "```" in
  is_Some (JSON_parse SampleHost.host payload)
  /\ RagOptimizer.jsonString payload = js "npm start"
  /\ RagOptimizer.parseClaudeResponse SampleHost.host payload 0
     = Throw (Error (js "Failed to parse Claude response"))
  /\ RagOptimizer.jsonString fenced
     = SampleHost.json "{'topics':['cli'],'technicalDetails':[{'type':'command','content':'"
  /\ RagOptimizer.parseClaudeResponse SampleHost.host fenced 0
     = Throw (Error (js "Failed to parse Claude response")).
Proof.
  cbv zeta. split; [|repeat split; vm_compute; reflexivity].
  vm_compute. by eexists.
Qed.

(** * C2: the count after an append *)

(** C2, the code at a failing input.  The chat topic is the text
    [**Total Messages:** 7]; the first run wrote three messages and the
    count line [**Total Messages:** 3].  Appending two messages succeeds and
    returns 2, but the expression of [appendMessagesToExport] is not tied to
    the count line: it finds the topic first, reads 7 and writes 9 there.
    The count line still says 3, and 3 is what [parseExistingExport] reports
    after the append, while the body now holds five messages. *)
Theorem append_rewrites_label_inside_topic :
  RagGenerator.totalMessages <$>
    RagGenerator.parseExistingExport SampleHost.host
      SampleHost.LabelInTopic.fs SampleHost.LabelInTopic.path = Some 3%N
  /\ SampleHost.LabelInTopic.appended.2 = Return 2%N
  /\ RagGenerator.totalMessages <$>
       RagGenerator.parseExistingExport SampleHost.host
         SampleHost.LabelInTopic.appended.1 SampleHost.LabelInTopic.path = Some 3%N
  /\ (fun content => take 4 (drop 2 (splitLines content))) <$>
       (SampleHost.LabelInTopic.appended.1 !! SampleHost.LabelInTopic.path)
     = Some [js "**Topic:** **Total Messages:** 9";
             js "**Chat Type:** group";
             js "**Source:** Chat (19:abc...)";
             js "**Total Messages:** 3"]
  /\ length SampleHost.LabelInTopic.firstRun = 3%nat
  /\ length SampleHost.LabelInTopic.newMessages = 2%nat.
Proof. repeat split; vm_compute; reflexivity. Qed.

(** * Headers with plain fields: what an append does to them *)

Module HeaderFacts.
Import Regex RagGenerator.

Lemma safe_nil label : safe label [].
Proof. intros rest i Hi. cbn in Hi. lia. Qed.

Lemma safe_app label a b : safe label a -> safe label b -> safe label (a ++ b).
Proof.
  intros Ha Hb rest i Hi. rewrite <- app_assoc.
  destruct (decide (i < length a)%nat) as [Hlt|Hge]; [by apply Ha|].
  rewrite drop_app_ge by lia. apply Hb. rewrite length_app in Hi. lia.
Qed.

Lemma safe_unlines label lines :
  Forall (safe label) lines -> safe label newline -> safe label (unlines lines).
Proof.
  intros Hl Hn. unfold unlines.
  induction Hl as [|line lines Hline Hl IH]; cbn; [apply safe_nil|].
  rewrite <- app_assoc. by repeat apply safe_app.
Qed.

Lemma differs_none label : forall s rest,
  differs label s = true -> stripPrefix label (s ++ rest) = None.
Proof.
  induction label as [|c label IH]; intros [|d s] rest H; cbn in *; try done.
  destruct (c =? d); [by apply IH|done].
Qed.

Lemma safeFixed_safe label s : safeFixed label s = true -> safe label s.
Proof.
  intros H rest i Hi. unfold safeFixed in H.
  rewrite forallb_forall in H.
  rewrite drop_app_le by lia. apply differs_none, H.
  apply in_seq. lia.
Qed.

Lemma starFree_safe label s :
  Forall (fun c => c <> 42) s -> safe (42 :: label) s.
Proof.
  intros Hs rest i Hi. rewrite drop_app_le by lia.
  destruct (drop i s) as [|c tail] eqn:Hd.
  - apply (f_equal length) in Hd. rewrite length_drop in Hd. cbn in Hd. lia.
  - assert (Hc : c ∈ s).
    { apply (list_elem_of_lookup_2 _ i). rewrite <- (Nat.add_0_r i).
      by rewrite <- lookup_drop, Hd. }
    eapply Forall_forall in Hs; [|exact Hc]. cbn [app stripPrefix].
    destruct (42 =? c) eqn:E; [|done]. apply N.eqb_eq in E. congruence.
Qed.

Lemma quiet_safe label s : quiet s -> safe (42 :: label) s.
Proof.
  intros Hq. apply starFree_safe. eapply Forall_impl; [exact Hq|]. by intros c [? _].
Qed.

Lemma quiet_take n s : quiet s -> quiet (take n s).
Proof. apply Forall_take. Qed.

Lemma digit_not_space c : isDigit c = true -> isWhiteSpace c = false.
Proof.
  unfold isDigit, isWhiteSpace. intros H.
  apply andb_true_iff in H as [H1 H2]. apply N.leb_le in H1, H2.
  repeat (apply orb_false_intro); try (apply N.eqb_neq; lia).
  apply andb_false_iff. left. apply N.leb_gt. lia.
Qed.

Lemma digits_safe label n : safe (42 :: label) (numberToString n).
Proof.
  apply starFree_safe.
  eapply Forall_impl; [apply NumberFacts.numberToString_digits|].
  intros c Hc ->. done.
Qed.

(** The matchers ask for their label first. *)
Lemma reTotalMessages_guard s :
  stripPrefix (js "**Total Messages:**") s = None -> reTotalMessages s = None.
Proof. intros H. unfold reTotalMessages. by rewrite H. Qed.

Lemma labelled_guard label s : stripPrefix label s = None -> labelled label s = None.
Proof. intros H. unfold labelled. by rewrite H. Qed.

Lemma search_after {C : Type} (m : jsstring -> option (nat * C)) label a b len c :
  (forall s, stripPrefix label s = None -> m s = None) ->
  safe label a -> m b = Some (len, c) ->
  search m (a ++ b) = Some (length a, len, c).
Proof.
  intros Hguard Ha Hb. apply RegexFacts.search_at.
  - intros i Hi. by apply Hguard, Ha.
  - by rewrite drop_app_length.
  - rewrite length_app. lia.
Qed.

Lemma search_safe_none {C : Type} (m : jsstring -> option (nat * C)) label s :
  (forall s, stripPrefix label s = None -> m s = None) ->
  label <> [] -> safe label s -> search m s = None.
Proof.
  intros Hguard Hl Hs.
  assert (Hall : forall i, m (drop i s) = None).
  { intros i. apply Hguard.
    destruct (decide (i < length s)%nat) as [Hlt|Hge].
    - specialize (Hs [] i Hlt). by rewrite app_nil_r in Hs.
    - rewrite drop_ge by lia. by destruct label. }
  by apply RegexFacts.search_none.
Qed.

Lemma replaceFirst_after {C : Type} (m : jsstring -> option (nat * C)) label a b len c repl :
  (forall s, stripPrefix label s = None -> m s = None) ->
  safe label a -> m b = Some (len, c) ->
  replaceFirst m repl (a ++ b) = a ++ repl ++ drop len b.
Proof.
  intros Hguard Ha Hb. unfold replaceFirst.
  rewrite (search_after m label a b len c) by done.
  rewrite take_app_length, drop_app_ge by lia.
  do 3 f_equal. lia.
Qed.

Lemma join_snoc (lines : list jsstring) (final : jsstring) :
  join newline (lines ++ [final]) = unlines lines ++ final.
Proof.
  unfold unlines. induction lines as [|line lines IH]; [done|].
  cbn [app fmap list_fmap concat]. rewrite <- !app_assoc, <- IH.
  by destruct lines.
Qed.

Lemma unlines_app (a b : list jsstring) : unlines (a ++ b) = unlines a ++ unlines b.
Proof. unfold unlines. by rewrite fmap_app, concat_app. Qed.

Lemma unlines_cons (line : jsstring) (lines : list jsstring) :
  unlines (line :: lines) = line ++ newline ++ unlines lines.
Proof. unfold unlines. cbn [fmap list_fmap concat]. by rewrite <- app_assoc. Qed.

Lemma unlines_nil : unlines [] = [].
Proof. reflexivity. Qed.

(** The count line, at the end of the text or before a character that is
    no digit. *)
Lemma reTotalMessages_countLine_gen n rest :
  match rest with [] => True | c :: _ => isDigit c = false end ->
  reTotalMessages (countLine n ++ rest)
    = Some (length (countLine n), numberToString n).
Proof.
  intros Hrest. unfold countLine, reTotalMessages.
  change (js "**Total Messages:** ") with (js "**Total Messages:**" ++ [32]).
  rewrite <- !app_assoc, RegexFacts.stripPrefix_self.
  pose proof (NumberFacts.numberToString_digits n) as Hd.
  pose proof (NumberFacts.numberToString_nonempty n) as Hne.
  rewrite (RegexFacts.span_app isWhiteSpace [32]); [|by repeat constructor|].
  - rewrite (RegexFacts.span_app isDigit (numberToString n)); [|done|done].
    destruct (numberToString n) as [|d ds] eqn:E; [done|].
    by rewrite !length_app.
  - destruct (numberToString n) as [|d ds]; [done|]. cbn.
    apply Forall_cons_1 in Hd as [Hd _]. by apply digit_not_space.
Qed.

Lemma reTotalMessages_countLine n rest :
  reTotalMessages (countLine n ++ newline ++ rest)
    = Some (length (countLine n), numberToString n).
Proof. by apply reTotalMessages_countLine_gen. Qed.

(** A labelled date line, followed by a line break. *)
Lemma labelled_dateLine label text rest :
  dateText text ->
  labelled label ((label ++ [32] ++ text) ++ newline ++ rest)
    = Some (length (label ++ [32] ++ text), text).
Proof.
  intros [Hq Hv]. unfold labelled, spacesThenRest.
  rewrite <- !app_assoc, RegexFacts.stripPrefix_self.
  rewrite (RegexFacts.span_app isWhiteSpace [32]); [|by repeat constructor|].
  - destruct text as [|c text']; [done|].
    set (text := c :: text') in *.
    change ((text ++ newline ++ rest)) with (c :: (text' ++ newline ++ rest)).
    change (c :: text' ++ newline ++ rest) with (text ++ newline ++ rest).
    rewrite (RegexFacts.span_app (fun c => negb (isLineTerminator c)) text).
    + subst text. cbn [app]. by rewrite !length_app.
    + eapply Forall_impl; [exact Hq|]. intros x [_ Hx]. by rewrite Hx.
    + done.
  - destruct text as [|c text']; [done|]. exact Hv.
Qed.

Lemma opt_cases (o : option jsstring) (line : jsstring -> jsstring) :
  opt o line = [] \/ exists x, o = Some x /\ opt o line = [line x].
Proof. destruct o as [[|c x]|]; cbn; eauto. Qed.

Lemma truthy_cases (o : option jsstring) :
  truthy o = None \/ exists x, o = Some x /\ truthy o = Some x.
Proof. destruct o as [[|c x]|]; cbn; eauto. Qed.

Ltac safe_leaf :=
  first
    [ apply safe_nil
    | apply safeFixed_safe; vm_compute; reflexivity
    | apply digits_safe
    | apply quiet_safe; first [assumption | apply quiet_take; assumption] ].

Ltac safe_tac := repeat first [ safe_leaf | apply safe_app ].

Lemma leading_safe h metadata options label :
  headerLabel label -> PlainFields h metadata options ->
  safe label (unlines (leadingLines metadata options)).
Proof.
  intros Hl [Ht Hc _ Hchat Hteam Hchan]. unfold leadingLines.
  rewrite !unlines_app.
  apply safe_app; [|apply safe_app; [|apply safe_app]].
  - destruct Hl; apply safeFixed_safe; vm_compute; reflexivity.
  - destruct (opt_cases (topic metadata) (fun t => js "**Topic:** " ++ t))
      as [->|(x & Hx & ->)]; [apply safe_nil|].
    rewrite Hx in Ht. cbn in Ht. unfold unlines. cbn [fmap list_fmap concat].
    destruct Hl; safe_tac.
  - destruct (opt_cases (chatType metadata) (fun t => js "**Chat Type:** " ++ t))
      as [->|(x & Hx & ->)]; [apply safe_nil|].
    rewrite Hx in Hc. cbn in Hc. unfold unlines. cbn [fmap list_fmap concat].
    destruct Hl; safe_tac.
  - destruct (teamId options) as [[|c1 team]|];
      destruct (channelId options) as [[|c2 chan]|];
      destruct (chatId options) as [[|c3 chat]|];
      cbn [truthy]; cbn in Hteam, Hchan, Hchat;
      unfold unlines; cbn [fmap list_fmap concat];
      destruct Hl; safe_tac.
Qed.

Lemma created_safe h metadata options label :
  headerLabel label -> PlainFields h metadata options ->
  safe label (unlines (createdLines h metadata)).
Proof.
  intros Hl [_ _ Hc _ _ _]. unfold createdLines.
  destruct (opt_cases (meta_createdDateTime metadata)
              (fun c => js "**Created:** " ++ toLocaleString h (Date_parse h c)))
    as [->|(x & Hx & ->)]; [apply safe_nil|].
  rewrite Hx in Hc. cbn in Hc. unfold unlines. cbn [fmap list_fmap concat].
  destruct Hl; safe_tac.
Qed.

Lemma header_layout h now metadata n options :
  generateHeader h now metadata n options
    = unlines (leadingLines metadata options)
        ++ (countLine n ++ newline)
        ++ unlines (createdLines h metadata)
        ++ (lastRunLine h now ++ newline)
        ++ lastRunLocalLine h now.
Proof.
  unfold generateHeader.
  replace (leadingLines metadata options ++ [countLine n]
             ++ createdLines h metadata ++ [lastRunLine h now; lastRunLocalLine h now])
    with ((leadingLines metadata options ++ [countLine n]
             ++ createdLines h metadata ++ [lastRunLine h now])
            ++ [lastRunLocalLine h now])
    by (by rewrite <- !app_assoc).
  rewrite join_snoc, !unlines_app. unfold unlines at 2 4.
  cbn [fmap list_fmap concat]. by rewrite !app_nil_r, <- !app_assoc.
Qed.

(** On a header with plain fields, followed by a line break, the three
    replacements of the appender amount to writing the header anew with the
    new count and the new clock; what follows the header is not touched. *)
Lemma updateHeader_generated h now0 now metadata options n added rest :
  PlainFields h metadata options -> PlainClock h now0 -> PlainClock h now ->
  updateHeader h now (generateHeader h now0 metadata n options ++ newline ++ rest) added
    = generateHeader h now metadata (n + added) options ++ newline ++ rest.
Proof.
  intros Hplain [Hiso0 Hloc0] [Hiso Hloc].
  pose proof (fun label Hl => leading_safe h metadata options label Hl Hplain)
    as Hlead.
  pose proof (fun label Hl => created_safe h metadata options label Hl Hplain)
    as Hcreated.
  rewrite !header_layout. unfold updateHeader.
  set (P := unlines (leadingLines metadata options)) in *.
  set (Cr := unlines (createdLines h metadata)) in *.
  (* the count *)
  set (tail0 := Cr ++ (lastRunLine h now0 ++ newline) ++ lastRunLocalLine h now0
                  ++ newline ++ rest).
  replace ((P ++ (countLine n ++ newline) ++ Cr ++ (lastRunLine h now0 ++ newline)
              ++ lastRunLocalLine h now0) ++ newline ++ rest)
    with (P ++ (countLine n ++ newline ++ tail0))
    by (unfold tail0; by rewrite <- !app_assoc).
  rewrite (search_after reTotalMessages (js "**Total Messages:**") P _
             (length (countLine n)) (numberToString n));
    [|exact reTotalMessages_guard|apply Hlead; constructor
     |apply reTotalMessages_countLine].
  rewrite (replaceFirst_after reTotalMessages (js "**Total Messages:**") P _
             (length (countLine n)) (numberToString n));
    [|exact reTotalMessages_guard|apply Hlead; constructor
     |apply reTotalMessages_countLine].
  rewrite drop_app_length, NumberFacts.parseInt_numberToString.
  fold (countLine (n + added)).
  (* the last run *)
  set (A1 := P ++ countLine (n + added) ++ newline ++ Cr).
  set (tail1 := lastRunLocalLine h now0 ++ newline ++ rest).
  replace (P ++ countLine (n + added) ++ newline ++ tail0)
    with (A1 ++ ((js "**Last Run:**" ++ [32] ++ toISOString h now0)
                   ++ newline ++ tail1))
    by (unfold A1, tail0, tail1, lastRunLine;
        change (js "**Last Run:** ") with (js "**Last Run:**" ++ [32]);
        by rewrite <- !app_assoc).
  assert (HA1 : forall label, headerLabel label ->
                  label <> js "**Total Messages:**" -> safe label A1).
  { intros label Hl Hne. unfold A1.
    apply safe_app; [by apply Hlead|].
    apply safe_app; [|apply safe_app; [|by apply Hcreated]].
    - unfold countLine. destruct Hl; [done| |]; safe_tac.
    - destruct Hl; safe_tac. }
  unfold reLastRun.
  rewrite (replaceFirst_after (labelled (js "**Last Run:**")) (js "**Last Run:**") A1 _
             (length (js "**Last Run:**" ++ [32] ++ toISOString h now0))
             (toISOString h now0));
    [|apply labelled_guard|apply HA1; [constructor|done]
     |by apply labelled_dateLine].
  rewrite drop_app_length. fold (lastRunLine h now).
  (* the local last run *)
  set (A2 := A1 ++ lastRunLine h now ++ newline).
  replace (A1 ++ lastRunLine h now ++ newline ++ tail1)
    with (A2 ++ ((js "**Last Run (Local):**" ++ [32] ++ toLocaleString h (ValidDate now0))
                   ++ newline ++ rest))
    by (unfold A2, tail1, lastRunLocalLine;
        change (js "**Last Run (Local):** ") with (js "**Last Run (Local):**" ++ [32]);
        by rewrite <- !app_assoc).
  unfold reLastRunLocal.
  rewrite (replaceFirst_after (labelled (js "**Last Run (Local):**"))
             (js "**Last Run (Local):**") A2 _
             (length (js "**Last Run (Local):**" ++ [32]
                        ++ toLocaleString h (ValidDate now0)))
             (toLocaleString h (ValidDate now0)));
    [|apply labelled_guard| |by apply labelled_dateLine].
  - rewrite drop_app_length. fold (lastRunLocalLine h now).
    unfold A2, A1. by rewrite <- !app_assoc.
  - unfold A2. apply safe_app; [apply HA1; [constructor|done]|].
    destruct Hiso as [Hq _]. unfold lastRunLine. safe_tac.
Qed.

(** *** The reader on such a header *)

Lemma totalMessages_parseLine h metadata line :
  totalMessages (parseLine h metadata line)
    = match search reTotalMessages line with
      | Some (_, _, digits) => parseInt digits
      | None => totalMessages metadata
      end.
Proof.
  unfold parseLine.
  destruct (search reLastRun line) as [[[? ?] ?]|];
    destruct (search reSource line) as [[[? ?] ?]|];
    destruct (search reTotalMessages line) as [[[? ?] ?]|]; done.
Qed.

Lemma totalMessages_parseLines h lines : forall metadata,
  totalMessages (parseLines h metadata lines)
    = countLines (totalMessages metadata) lines.
Proof.
  induction lines as [|line lines IH]; intros metadata; cbn [parseLines countLines];
    [done|].
  rewrite <- (totalMessages_parseLine h metadata).
  destruct (str_eqb (trim line) (js "---")); [done|apply IH].
Qed.

Lemma splitLines_line (line rest : jsstring) :
  Forall (fun c => c <> 10) line ->
  splitLines (line ++ newline ++ rest) = line :: splitLines rest.
Proof.
  induction line as [|c line IH]; intros Hl; [done|].
  apply Forall_cons_1 in Hl as [Hc Hl].
  cbn [app splitLines]. rewrite (proj2 (N.eqb_neq c 10) Hc).
  change (line ++ 10 :: rest) with (line ++ newline ++ rest).
  by rewrite IH.
Qed.

Lemma splitLines_unlines (lines : list jsstring) (rest : jsstring) :
  Forall (fun line => Forall (fun c => c <> 10) line) lines ->
  splitLines (unlines lines ++ rest) = lines ++ splitLines rest.
Proof.
  unfold unlines. induction lines as [|line lines IH]; intros Hl; [done|].
  apply Forall_cons_1 in Hl as [Hline Hl].
  cbn [fmap list_fmap concat]. rewrite <- !app_assoc.
  by rewrite splitLines_line, IH.
Qed.

Lemma countLines_passed (lines rest : list jsstring) (n : N) :
  Forall passedLine lines -> countLines n (lines ++ rest) = countLines n rest.
Proof.
  induction 1 as [|line lines (Hsafe & _ & Htrim) _ IH]; [done|].
  cbn [app countLines].
  rewrite (search_safe_none reTotalMessages (js "**Total Messages:**"));
    [|exact reTotalMessages_guard|done|done].
  unfold str_eqb. by rewrite bool_decide_eq_false_2.
Qed.

Lemma trimStart_visible c s : isWhiteSpace c = false -> trimStart (c :: s) = c :: s.
Proof. intros H. cbn. by rewrite H. Qed.

Lemma trimStart_snoc s c :
  isWhiteSpace c = false -> trimStart (s ++ [c]) = trimStart s ++ [c].
Proof.
  intros H. induction s as [|d s IH]; cbn; [by rewrite H|].
  destruct (isWhiteSpace d); [done|done].
Qed.

Lemma trim_visible c s : isWhiteSpace c = false -> exists t, trim (c :: s) = c :: t.
Proof.
  intros H. unfold trim, trimEnd. rewrite trimStart_visible by done.
  cbn [rev]. rewrite trimStart_snoc by done.
  rewrite rev_app_distr. cbn. by eexists.
Qed.

Lemma passedLine_intro (fixed tail : jsstring) :
  fixedStart fixed = true ->
  Forall (fun c => c <> 42 /\ c <> 10) tail ->
  passedLine (fixed ++ tail).
Proof.
  unfold fixedStart. intros Hf Ht.
  apply andb_true_iff in Hf as [Hf Hhead]. apply andb_true_iff in Hf as [Hsafe Hnl].
  split; [|split].
  - apply safe_app; [by apply safeFixed_safe|].
    change (js "**Total Messages:**") with (42 :: js "*Total Messages:**").
    apply starFree_safe. eapply Forall_impl; [exact Ht|]. by intros c [? _].
  - apply Forall_app. split.
    + apply Forall_forall. intros c Hc. rewrite forallb_forall in Hnl.
      apply list_elem_of_In, Hnl in Hc. apply negb_true_iff in Hc.
      by apply N.eqb_neq.
    + eapply Forall_impl; [exact Ht|]. by intros c [_ ?].
  - destruct fixed as [|c fixed]; [done|].
    apply andb_true_iff in Hhead as [Hv Hdash].
    apply negb_true_iff in Hv, Hdash. apply N.eqb_neq in Hdash.
    destruct (trim_visible c (fixed ++ tail) Hv) as [t Ht'].
    cbn [app]. rewrite Ht'. intros Heq. injection Heq as Hc _.
    apply Hdash. rewrite Hc. done.
Qed.

Lemma quiet_calm s : quiet s -> Forall (fun c => c <> 42 /\ c <> 10) s.
Proof.
  intros Hq. eapply Forall_impl; [exact Hq|].
  intros c [Hstar Hlt]. split; [done|]. by intros ->.
Qed.

Lemma passedLine_blank : passedLine [].
Proof. split; [apply safe_nil|]. split; [constructor|done]. Qed.

Lemma calm_fixed (s : jsstring) :
  forallb (fun c => negb (c =? 42) && negb (c =? 10)) s = true ->
  Forall (fun c => c <> 42 /\ c <> 10) s.
Proof.
  intros H. rewrite forallb_forall in H. apply Forall_forall. intros c Hc.
  apply list_elem_of_In, H, andb_true_iff in Hc as [H1 H2].
  apply negb_true_iff, N.eqb_neq in H1, H2. done.
Qed.

Ltac calm_tac :=
  repeat first
    [ apply Forall_nil_2
    | apply calm_fixed; vm_compute; reflexivity
    | apply quiet_calm; first [assumption | apply quiet_take; assumption]
    | apply Forall_app_2 ].

Ltac passed_line := apply passedLine_intro; [vm_compute; reflexivity|calm_tac].

Lemma leading_passed h metadata options :
  PlainFields h metadata options -> Forall passedLine (leadingLines metadata options).
Proof.
  intros [Ht Hc _ Hchat Hteam Hchan]. unfold leadingLines.
  apply Forall_app_2; [|apply Forall_app_2; [|apply Forall_app_2]].
  - constructor; [|constructor; [apply passedLine_blank|constructor]].
    rewrite <- (app_nil_r (js "# Teams Chat Export for RAG")). passed_line.
  - destruct (opt_cases (topic metadata) (fun t => js "**Topic:** " ++ t))
      as [->|(x & Hx & ->)]; [constructor|].
    rewrite Hx in Ht. cbn in Ht. constructor; [passed_line|constructor].
  - destruct (opt_cases (chatType metadata) (fun t => js "**Chat Type:** " ++ t))
      as [->|(x & Hx & ->)]; [constructor|].
    rewrite Hx in Hc. cbn in Hc. constructor; [passed_line|constructor].
  - destruct (teamId options) as [[|c1 team]|];
      destruct (channelId options) as [[|c2 chan]|];
      destruct (chatId options) as [[|c3 chat]|];
      cbn [truthy]; cbn in Hteam, Hchan, Hchat;
      first [apply Forall_nil_2 | constructor; [passed_line|constructor]].
Qed.

Lemma created_passed h metadata options :
  PlainFields h metadata options -> Forall passedLine (createdLines h metadata).
Proof.
  intros [_ _ Hc _ _ _]. unfold createdLines.
  destruct (opt_cases (meta_createdDateTime metadata)
              (fun c => js "**Created:** " ++ toLocaleString h (Date_parse h c)))
    as [->|(x & Hx & ->)]; [constructor|].
  rewrite Hx in Hc. cbn in Hc. constructor; [passed_line|constructor].
Qed.

Lemma lastRun_passed h now :
  PlainClock h now ->
  passedLine (lastRunLine h now) /\ passedLine (lastRunLocalLine h now).
Proof.
  intros [[Hiso _] [Hloc _]]. unfold lastRunLine, lastRunLocalLine.
  split; passed_line.
Qed.

Lemma countLines_separator n rest : countLines n (js "---" :: rest) = n.
Proof. reflexivity. Qed.

(** What the reader finds on a generated header: the count it was
    generated with. *)
Lemma reader_on_generated h now metadata options n body :
  PlainFields h metadata options -> PlainClock h now ->
  countLines 0 (splitLines (generateHeader h now metadata n options ++ separator ++ body))
    = n.
Proof.
  intros Hplain Hclock.
  pose proof (leading_passed h metadata options Hplain) as Hlead.
  pose proof (created_passed h metadata options Hplain) as Hcr.
  destruct (lastRun_passed h now Hclock) as [Hlr Hlrl].
  set (lead := leadingLines metadata options) in *.
  set (cr := createdLines h metadata) in *.
  assert (Hlayout :
    generateHeader h now metadata n options ++ separator ++ body
    = unlines (lead ++ [countLine n] ++ cr
                 ++ [lastRunLine h now; lastRunLocalLine h now; []; js "---"])
        ++ newline ++ body).
  { unfold generateHeader. fold lead cr.
    replace (lead ++ [countLine n] ++ cr ++ [lastRunLine h now; lastRunLocalLine h now])
      with ((lead ++ [countLine n] ++ cr ++ [lastRunLine h now])
              ++ [lastRunLocalLine h now])
      by (by rewrite <- !app_assoc).
    rewrite join_snoc, !unlines_app, !unlines_cons, unlines_nil. unfold separator.
    by rewrite ?app_nil_r, <- !app_assoc. }
  rewrite Hlayout.
  assert (Hcount : Forall (fun c => c <> 10) (countLine n)).
  { unfold countLine. apply Forall_app_2.
    - apply Forall_forall. intros c Hc. intros ->. vm_compute in Hc.
      repeat (apply elem_of_cons in Hc as [Hc|Hc]; [discriminate|]).
      by apply elem_of_nil in Hc.
    - eapply Forall_impl; [apply NumberFacts.numberToString_digits|].
      intros c Hc ->. done. }
  rewrite splitLines_unlines.
  - rewrite <- !app_assoc. rewrite countLines_passed by done.
    cbn [app countLines].
    rewrite (RegexFacts.search_head reTotalMessages (countLine n)
               (length (countLine n)) (numberToString n))
      by (rewrite <- (app_nil_r (countLine n)) at 1;
          by apply reTotalMessages_countLine_gen).
    rewrite NumberFacts.parseInt_numberToString.
    assert (Htrim : str_eqb (trim (countLine n)) (js "---") = false).
    { unfold str_eqb, countLine. apply bool_decide_eq_false_2.
      change (js "**Total Messages:** ") with (42 :: js "*Total Messages:** ").
      cbn [app]. destruct (trim_visible 42 (js "*Total Messages:** " ++ numberToString n))
        as [t Ht]; [done|]. rewrite Ht. done. }
    rewrite Htrim.
    rewrite countLines_passed by done.
    cbn [app countLines].
    destruct Hlr as (Hs1 & _ & Ht1). destruct Hlrl as (Hs2 & _ & Ht2).
    rewrite !(search_safe_none reTotalMessages (js "**Total Messages:**"));
      try done; try exact reTotalMessages_guard; try apply safe_nil;
      try (apply safeFixed_safe; vm_compute; reflexivity).
    unfold str_eqb. rewrite !bool_decide_eq_false_2 by done.
    reflexivity.
  - apply Forall_app_2; [|apply Forall_app_2; [|apply Forall_app_2]].
    + eapply Forall_impl; [exact Hlead|]. by intros l (_ & ? & _).
    + by constructor.
    + eapply Forall_impl; [exact Hcr|]. by intros l (_ & ? & _).
    + destruct Hlr as (_ & ? & _). destruct Hlrl as (_ & ? & _).
      constructor; [done|]. constructor; [done|].
      constructor; [constructor|].
      constructor; [|constructor].
      apply Forall_forall. intros c Hc ->. vm_compute in Hc.
      repeat (apply elem_of_cons in Hc as [Hc|Hc]; [discriminate|]).
      by apply elem_of_nil in Hc.
Qed.

End HeaderFacts.

(** On an export whose header was written by [generateHeader] from plain
    fields, an append of [added] messages rewrites the header as
    [generateHeader] would with the count raised by [added] and the clock of
    the run, leaves the body as it was and adds the new batch after it; the
    reader finds the old count before and the new count after.  (Counts stay
    within the integers JavaScript numbers hold exactly.) *)
Lemma append_on_plain_header (h : Host) (now0 now : Z) (fs : RagGenerator.FS)
    (outputPath : jsstring) (metadata : RagGenerator.ChatMetadata)
    (options : RagGenerator.SourceIds) (n : N) (body : jsstring)
    (newMessages : list Message) (memberMap : gmap jsstring jsstring)
    (includeMetadata groupByDate : bool) :
  let added := N.of_nat (length newMessages) in
  let batch :=
    if groupByDate
    then RagGenerator.generateGroupedByDate h newMessages memberMap includeMetadata
    else RagGenerator.generateSequential h newMessages memberMap includeMetadata in
  let written :=
    RagGenerator.generateHeader h now metadata (n + added) options
      ++ RagGenerator.separator ++ body ++ newline ++ batch in
  RagGenerator.PlainFields h metadata options ->
  RagGenerator.PlainClock h now0 -> RagGenerator.PlainClock h now ->
  (n + added <= MAX_SAFE_INTEGER)%N ->
  newMessages <> [] ->
  fs !! outputPath
    = Some (RagGenerator.generateHeader h now0 metadata n options
              ++ RagGenerator.separator ++ body) ->
  RagGenerator.appendMessagesToExport h now fs outputPath newMessages memberMap
    includeMetadata groupByDate
    = (<[outputPath := written]> fs, Return added)
  /\ RagGenerator.totalMessages <$> RagGenerator.parseExistingExport h fs outputPath
     = Some n
  /\ RagGenerator.totalMessages <$>
       RagGenerator.parseExistingExport h (<[outputPath := written]> fs) outputPath
     = Some (n + added)%N.
Proof.
  intros added batch written Hplain Hclock0 Hclock _ Hne Hfile.
  assert (Hread : forall fs' clock count text,
    RagGenerator.PlainClock h clock ->
    fs' !! outputPath
      = Some (RagGenerator.generateHeader h clock metadata count options
                ++ RagGenerator.separator ++ text) ->
    RagGenerator.totalMessages <$> RagGenerator.parseExistingExport h fs' outputPath
      = Some count).
  { intros fs' clock count text Hc Hf.
    unfold RagGenerator.parseExistingExport, RagGenerator.existsSync,
      RagGenerator.readFileSync.
    rewrite Hf. rewrite bool_decide_eq_true_2 by (by eexists).
    cbn [fmap option_fmap option_map].
    rewrite HeaderFacts.totalMessages_parseLines.
    cbn [RagGenerator.totalMessages].
    by rewrite HeaderFacts.reader_on_generated. }
  split; [|split].
  - unfold RagGenerator.appendMessagesToExport, RagGenerator.readFileSync.
    destruct newMessages as [|m ms] eqn:Hm; [done|]. rewrite <- Hm in *.
    rewrite Hfile. unfold RagGenerator.separator at 1.
    rewrite <- !app_assoc.
    rewrite (HeaderFacts.updateHeader_generated h now0 now) by done.
    unfold RagGenerator.writeFileSync. rewrite Hm.
    unfold written, batch, RagGenerator.separator, added.
    by rewrite <- !app_assoc.
  - by apply (Hread fs now0 n body).
  - apply (Hread _ now (n + added)%N (body ++ newline ++ batch)); [done|].
    by rewrite lookup_insert_eq.
Qed.
